(** * StarBurst: batch_remove_black_bg.py

    A shallow embedding of the background-removal script
    [frontend/dist/animations/Character/Win/.../batch_remove_black_bg.py]
    and the properties its specification states about it.

    Layout: the embedding (arrays, the OpenCV primitives the script calls,
    POSIX path functions, [remove_black_background_array], [process_one],
    [list_images], [main]) comes first; the theorems follow. *)

From Stdlib Require Import ZArith List String Ascii Bool Lia Permutation.
From Stdlib Require Import DecimalString.
Import ListNotations.
#[local] Open Scope Z_scope.

(* ===================================================================== *)
(** * Part I: the embedding                                               *)
(* ===================================================================== *)

(** ** Exceptions and results *)

(** A Python exception (an instance of a subclass of [Exception]): its
    class and the text [str(e)] gives. *)
Record exn : Type := Exn { exn_class : string; exn_msg : string }.

(** A call either returns a value or raises. *)
Inductive result (A : Type) : Type :=
| Returns (a : A)
| Raises (e : exn).
Arguments Returns {A} a.
Arguments Raises {A} e.

Definition ValueError (msg : string) : exn := Exn "ValueError" msg.

(** ** The run configuration

    The [argparse] namespace [args] that [parse_args] builds: the values one
    batch run works with. *)
Record Args : Type := MkArgs {
  args_input : string;
  args_output : string;
  args_threshold : Z;
  args_feather : Z;
  args_dilate : Z;
  args_workers : Z;
  args_keep_structure : bool
}.

(** ** Arrays *)

(** A [numpy] array of shape (h, w) is a list of h rows of w cells; a
    (h, w, 3) [uint8] array has cells [px3], a (h, w, 4) one cells [px4].
    Channel values are kept in [Z]. *)
Record px3 : Type := BGR { b3 : Z; g3 : Z; r3 : Z }.
Record px4 : Type := BGRA { b4 : Z; g4 : Z; r4 : Z; a4 : Z }.

Definition grid (A : Type) : Type := list (list A).
Definition plane : Type := grid Z.
Definition image3 : Type := grid px3.
Definition image4 : Type := grid px4.

(** [arr.shape[:2]], kept row by row. *)
Definition shape {A} (m : grid A) : list nat := map (@List.length A) m.

(** Number of cells of the first two axes. *)
Definition cells {A} (m : grid A) : nat := fold_right Nat.add O (shape m).

(** [bgr.size] of a (h, w, 3) array. *)
Definition size3 (m : image3) : Z := 3 * Z.of_nat (cells m).

(** [m[i, j]], [None] outside the array. *)
Definition at2 {A} (m : grid A) (i j : Z) : option A :=
  if (i <? 0) || (j <? 0) then None
  else match nth_error m (Z.to_nat i) with
       | Some row => nth_error row (Z.to_nat j)
       | None => None
       end.

Definition map2d {A B} (f : A -> B) (m : grid A) : grid B := map (map f) m.

Fixpoint mapi_from {A B} (f : nat -> A -> B) (k : nat) (l : list A) : list B :=
  match l with
  | [] => []
  | x :: t => f k x :: mapi_from f (S k) t
  end.

(** An array of the shape of [m] whose cell (i, j) holds [f i j]. *)
Definition tabulate_like {A B} (m : grid A) (f : Z -> Z -> B) : grid B :=
  mapi_from
    (fun i row => mapi_from (fun j _ => f (Z.of_nat i) (Z.of_nat j)) O row)
    O m.

Fixpoint zip_with {A B C} (f : A -> B -> C) (l : list A) (l' : list B) : list C :=
  match l, l' with
  | x :: t, y :: t' => f x y :: zip_with f t t'
  | _, _ => []
  end.

(** ** The numpy and OpenCV operations of the script *)

(** [bgr[:,:,c]] for a channel selector [c]. *)
Definition channel (c : px3 -> Z) (bgr : image3) : plane := map2d c bgr.

(** [plane <= threshold], elementwise. *)
Definition le_scalar (p : plane) (threshold : Z) : grid bool :=
  map2d (fun v => v <=? threshold) p.

(** [x & y] on boolean arrays. *)
Definition and_mask (x y : grid bool) : grid bool :=
  zip_with (zip_with andb) x y.

(** [black_mask.astype(np.uint8) * 255]. *)
Definition astype_uint8_times_255 (m : grid bool) : plane :=
  map2d (fun c : bool => (if c then 1 else 0) * 255) m.

(** [cv2.cvtColor(bgr, cv2.COLOR_BGR2BGRA)]: the colours are copied and the
    new alpha channel is 255. *)
Definition cvtColor_BGR2BGRA (bgr : image3) : image4 :=
  map2d (fun p => BGRA (b3 p) (g3 p) (r3 p) 255) bgr.

(** [cv2.bitwise_not] on a [uint8] value: the complement within 8 bits. *)
Definition not8 (v : Z) : Z := Z.land (Z.lnot v) 255.
Definition bitwise_not (m : plane) : plane := map2d not8 m.

(** [cv2.dilate(mask, np.ones((3,3)), iterations=n)]: each pass replaces a
    cell by the maximum over its 3x3 neighbourhood; cells outside the array
    do not take part (OpenCV's default border for morphology). *)
Definition offsets3 : list Z := [-1; 0; 1].

Definition neighbourhood (m : plane) (i j : Z) : list Z :=
  flat_map
    (fun di =>
       flat_map
         (fun dj => match at2 m (i + di) (j + dj) with
                    | Some v => [v]
                    | None => []
                    end)
         offsets3)
    offsets3.

Definition dilate_px (m : plane) (i j : Z) : Z :=
  fold_right Z.max 0 (neighbourhood m i j).

Definition dilate_once (m : plane) : plane := tabulate_like m (dilate_px m).

(** What the script cannot decide about OpenCV.  [cv2.GaussianBlur] belongs
    to the library: the embedding takes the array it returns, or the
    exception it raises, as given.  [cv2.dilate] raises [cv2.error] when the
    iteration count does not fit a C int, and when the structuring element,
    which OpenCV enlarges by the count, cannot be allocated; the build and
    the machine decide which counts are taken.  [dilate_error] is that
    exception, [None] when the call is carried out. *)
Record OpenCV : Type := MkOpenCV {
  (** [cv2.GaussianBlur(alpha, (k, k), 0)]. *)
  GaussianBlur : plane -> Z -> result plane;
  (** [cv2.dilate(mask, np.ones((3,3)), iterations=n)], when it raises. *)
  dilate_error : plane -> Z -> option exn
}.

(** [cv2.dilate(m, np.ones((3,3)), iterations=n)]: the exception of a call
    that is refused, the array after [n] passes otherwise. *)
Definition cv2_dilate (cv : OpenCV) (m : plane) (iterations : Z) : result plane :=
  match dilate_error cv m iterations with
  | Some e => Raises e
  | None => Returns (Nat.iter (Z.to_nat iterations) dilate_once m)
  end.

(** [bgra[:,:,3] = alpha]. *)
Definition set_alpha (bgra : image4) (alpha : plane) : image4 :=
  zip_with (zip_with (fun p a => BGRA (b4 p) (g4 p) (r4 p) a)) bgra alpha.

Definition alpha_of (bgra : image4) : plane := map2d a4 bgra.
Definition colour_of (bgra : image4) : image3 :=
  map2d (fun q => BGR (b4 q) (g4 q) (r4 q)) bgra.

(** ** remove_black_background_array *)

(** A call that raises ends the computation with its exception. *)
Definition and_then {A B} (r : result A) (k : A -> result B) : result B :=
  match r with
  | Returns a => k a
  | Raises e => Raises e
  end.

(** [feather and feather > 0 and feather % 2 == 1]. *)
Definition feather_on (feather : Z) : bool :=
  negb (feather =? 0) && (0 <? feather) && (feather mod 2 =? 1).

Section PixelMasker.

Variable cv : OpenCV.

(** Lines 33-57.  [bgr] may be [None].  An exception of [cv2.dilate] or of
    [cv2.GaussianBlur] leaves the function. *)
Definition remove_black_background_array
    (bgr : option image3) (threshold feather dilate : Z) : result image4 :=
  match bgr with
  | None => Raises (ValueError "Empty image provided")
  | Some bgr =>
      if size3 bgr =? 0 then Raises (ValueError "Empty image provided")
      else
        let bgra := cvtColor_BGR2BGRA bgr in
        let black_mask :=
          and_mask (and_mask (le_scalar (channel b3 bgr) threshold)
                             (le_scalar (channel g3 bgr) threshold))
                   (le_scalar (channel r3 bgr) threshold) in
        let mask := astype_uint8_times_255 black_mask in
        and_then (if 0 <? dilate then cv2_dilate cv mask dilate
                  else Returns mask)
          (fun mask =>
             let alpha := bitwise_not mask in
             and_then (if feather_on feather
                       then GaussianBlur cv alpha feather
                       else Returns alpha)
               (fun alpha => Returns (set_alpha bgra alpha)))
  end.

End PixelMasker.

(** ** Python strings

    The [str] methods the script and [os.path] use, on strings of 8-bit
    characters. *)
Module str.

(** [s.rfind(c)] for a single character: the last index of [c], or -1. *)
Fixpoint rfind (c : ascii) (s : string) : Z :=
  match s with
  | EmptyString => -1
  | String a t =>
      let r := rfind c t in
      if 0 <=? r then r + 1 else if Ascii.eqb a c then 0 else -1
  end.

Fixpoint take (n : nat) (s : string) : string :=
  match n, s with
  | S n', String a t => String a (take n' t)
  | _, _ => EmptyString
  end.

Fixpoint drop (n : nat) (s : string) : string :=
  match n, s with
  | S n', String _ t => drop n' t
  | _, _ => s
  end.

(** [s[:i]] and [s[i:]] for [0 <= i]. *)
Definition slice_to (s : string) (i : Z) : string := take (Z.to_nat i) s.
Definition slice_from (s : string) (i : Z) : string := drop (Z.to_nat i) s.

(** [s[i:i+1]]. *)
Definition char_at (s : string) (i : Z) : string := take 1 (slice_from s i).

(** [s.rstrip(c)]. *)
Fixpoint rstrip (c : ascii) (s : string) : string :=
  match s with
  | EmptyString => EmptyString
  | String a t =>
      match rstrip c t with
      | EmptyString => if Ascii.eqb a c then EmptyString else String a EmptyString
      | t' => String a t'
      end
  end.

Definition startswith (s p : string) : bool := String.prefix p s.

(** [s.endswith(c)] for a single character. *)
Fixpoint endswith (s : string) (c : ascii) : bool :=
  match s with
  | EmptyString => false
  | String a EmptyString => Ascii.eqb a c
  | String _ t => endswith t c
  end.

(** [s == c * len(s)]. *)
Fixpoint all_char (c : ascii) (s : string) : bool :=
  match s with
  | EmptyString => true
  | String a t => Ascii.eqb a c && all_char c t
  end.

(** [c * n]. *)
Fixpoint repeat (c : ascii) (n : nat) : string :=
  match n with
  | O => EmptyString
  | S n' => String c (repeat c n')
  end.

(** [s.split(c)]: never an empty list. *)
Fixpoint split (c : ascii) (s : string) : list string :=
  match s with
  | EmptyString => [EmptyString]
  | String a t =>
      if Ascii.eqb a c then EmptyString :: split c t
      else match split c t with
           | h :: r => String a h :: r
           | [] => [String a EmptyString]
           end
  end.

Definition lower_char (a : ascii) : ascii :=
  let n := nat_of_ascii a in
  if (65 <=? n)%nat && (n <=? 90)%nat then ascii_of_nat (n + 32) else a.

(** [s.lower()] on the ASCII letters. *)
Fixpoint lower (s : string) : string :=
  match s with
  | EmptyString => EmptyString
  | String a t => String (lower_char a) (lower t)
  end.

(** [str(n)] for a count. *)
Definition of_nat (n : nat) : string := NilEmpty.string_of_uint (Nat.to_uint n).

End str.

(** ** os.path on POSIX

    [posixpath] and [genericpath] of the Python library, as far as the
    script calls them. *)
Module posixpath.

Definition sep : ascii := "/"%char.
Definition extsep : ascii := "."%char.

Definition isabs (s : string) : bool := str.startswith s "/".

(** One round of the loop of [join]. *)
Definition join2 (path b : string) : string :=
  if str.startswith b "/" then b
  else if (path =? EmptyString)%string || str.endswith path sep then (path ++ b)%string
  else (path ++ "/" ++ b)%string.

(** [join(a, *p)]. *)
Definition join (a : string) (p : list string) : string := fold_left join2 p a.

Definition basename (p : string) : string :=
  let i := str.rfind sep p + 1 in
  str.slice_from p i.

Definition dirname (p : string) : string :=
  let i := str.rfind sep p + 1 in
  let head := str.slice_to p i in
  if negb (head =? EmptyString)%string && negb (str.all_char sep head)
  then str.rstrip sep head
  else head.

(** The loop of [genericpath._splitext] that skips leading dots: [true]
    when a character other than a dot lies in [p[filenameIndex:dotIndex]]. *)
Fixpoint splitext_scan (fuel : nat) (p : string) (filenameIndex dotIndex : Z) : bool :=
  match fuel with
  | O => false
  | S fuel' =>
      if filenameIndex <? dotIndex then
        if negb (str.char_at p filenameIndex =? ".")%string then true
        else splitext_scan fuel' p (filenameIndex + 1) dotIndex
      else false
  end.

Definition splitext (p : string) : string * string :=
  let sepIndex := str.rfind sep p in
  let dotIndex := str.rfind extsep p in
  if (sepIndex <? dotIndex)
     && splitext_scan (String.length p) p (sepIndex + 1) dotIndex
  then (str.slice_to p dotIndex, str.slice_from p dotIndex)
  else (p, EmptyString).

(** The body of the loop of [normpath] over the components. *)
Definition normpath_step (initial_slashes : nat) (new_comps : list string)
    (comp : string) : list string :=
  if (comp =? EmptyString)%string || (comp =? ".")%string then new_comps
  else if negb (comp =? "..")%string
          || ((initial_slashes =? 0)%nat && match new_comps with [] => true | _ => false end)
          || match new_comps with
             | [] => false
             | _ => (last new_comps EmptyString =? "..")%string
             end
  then (new_comps ++ [comp])%list
  else removelast new_comps.

Definition initial_slashes_of (path : string) : nat :=
  if str.startswith path "/" then
    if str.startswith path "//" && negb (str.startswith path "///") then 2%nat
    else 1%nat
  else 0%nat.

Definition normpath (path : string) : string :=
  if (path =? EmptyString)%string then "."%string
  else
    let initial_slashes := initial_slashes_of path in
    let comps := fold_left (normpath_step initial_slashes) (str.split sep path) [] in
    let path := String.concat "/" comps in
    let path := (str.repeat sep initial_slashes ++ path)%string in
    if (path =? EmptyString)%string then "."%string else path.

(** [abspath]; [cwd] is what [os.getcwd()] returns. *)
Definition abspath (cwd path : string) : string :=
  normpath (if isabs path then path else join cwd [path]).

(** Length of the longest common prefix of two component lists: what
    [len(commonprefix([l1, l2]))] is. *)
Fixpoint commonprefix_len (l1 l2 : list string) : nat :=
  match l1, l2 with
  | x :: t1, y :: t2 => if (x =? y)%string then S (commonprefix_len t1 t2) else O
  | _, _ => O
  end.

Definition nonempty_comps (s : string) : list string :=
  filter (fun x => negb (x =? EmptyString)%string) (str.split sep s).

(** [relpath(path, start)]. *)
Definition relpath (cwd path start : string) : result string :=
  if (path =? EmptyString)%string then Raises (ValueError "no path specified")
  else
    let start_list := nonempty_comps (abspath cwd start) in
    let path_list := nonempty_comps (abspath cwd path) in
    let i := commonprefix_len start_list path_list in
    let rel_list :=
      (List.repeat ".."%string (List.length start_list - i) ++ skipn i path_list)%list in
    match rel_list with
    | [] => Returns "."%string
    | a :: p => Returns (join a p)
    end.

End posixpath.

(** ** The world outside the script

    What the script does to the file system and the terminal is recorded as
    a trace of events; what the file system answers is read from a [World].
    A computation yields its trace and either a value or the exception that
    ended it. *)
Inductive event : Type :=
| Makedirs (path : string)
| Imread (path : string)
| Imwrite (path : string) (img : image4)
| Print (line : string)
| PrintErr (line : string).

Record World : Type := MkWorld {
  getcwd : string;
  os_path_isdir : string -> bool;
  (** [os.walk(root)]: the directories under [root] with their file names. *)
  os_walk : string -> list (string * list string);
  (** [os.makedirs(path, exist_ok=True)]. *)
  os_makedirs : string -> result unit;
  (** [cv2.imread(path, cv2.IMREAD_COLOR)]: [None] when the file cannot be
      decoded. *)
  cv2_imread : string -> result (option image3);
  cv2_imwrite : string -> image4 -> result bool
}.

Definition M (A : Type) : Type := (list event * result A)%type.

Definition ret {A} (a : A) : M A := ([], Returns a).

Definition bind {A B} (m : M A) (k : A -> M B) : M B :=
  match m with
  | (t, Returns a) => let (t', r) := k a in ((t ++ t')%list, r)
  | (t, Raises e) => (t, Raises e)
  end.

(** A call that needs no effect. *)
Definition lift {A} (r : result A) : M A := ([], r).

(** A call into the world: the event is recorded, the answer passed on. *)
Definition call {A} (ev : event) (r : result A) : M A := ([ev], r).

(** [try: m  except Exception as e: h e]. *)
Definition try_except {A} (m : M A) (h : exn -> M A) : M A :=
  match m with
  | (t, Raises e) => let (t', r) := h e in ((t ++ t')%list, r)
  | (t, Returns a) => (t, Returns a)
  end.

Declare Scope script_scope.
Delimit Scope script_scope with script.
Notation "x <- m ;; k" := (bind m (fun x => k))
  (at level 61, m at next level, right associativity) : script_scope.
Notation "m ;;; k" := (bind m (fun _ => k))
  (at level 61, right associativity) : script_scope.

(** [ThreadPoolExecutor]: every submitted task is run to its end, also when
    one of them raises; collecting the results with [fut.result()] then
    re-raises the exception of a task that raised.  The tasks are taken in
    the order of submission. *)
Fixpoint pool_map {A B} (f : A -> M B) (l : list A) : M (list B) :=
  match l with
  | [] => ret []
  | x :: t =>
    let (tx, rx) := f x in
    let (tt, rt) := pool_map f t in
    ((tx ++ tt)%list,
     match rx, rt with
     | Raises e, _ => Raises e
     | Returns _, Raises e => Raises e
     | Returns b, Returns bs => Returns (b :: bs)
     end)
  end.

(** ** process_one, list_images, main *)

Definition IMAGE_EXTS : list string :=
  [".jpg"; ".jpeg"; ".png"; ".bmp"; ".tif"; ".tiff"; ".webp"]%string.

(** [sum(1 for r in results if r.startswith(p))]. *)
Definition count_prefix (p : string) (results : list string) : nat :=
  List.length (filter (fun r => str.startswith r p) results).

(** The summary line [main] prints. *)
Definition summary_line (ok err skip : nat) : string :=
  (String "010"%char "Summary: " ++ str.of_nat ok ++ " OK, " ++ str.of_nat err
   ++ " errors, " ++ str.of_nat skip ++ " skipped.")%string.

Section Script.

Variable cv : OpenCV.
Variable W : World.

#[local] Open Scope script_scope.

(** [args] is the module global that [main] sets and [process_one] reads. *)
Definition process_one (args : Args) (in_path out_dir : string)
    (threshold feather dilate_iters : Z) (keep_structure : bool) : M string :=
  rel_dir <- (if keep_structure
              then lift (posixpath.relpath (getcwd W)
                           (posixpath.dirname in_path) (args_input args))
              else ret EmptyString) ;;
  let target_dir := posixpath.join out_dir [rel_dir] in
  call (Makedirs target_dir) (os_makedirs W target_dir) ;;;
  let (stem, _) := posixpath.splitext (posixpath.basename in_path) in
  let out_path := posixpath.join target_dir [(stem ++ ".png")%string] in
  bgr <- call (Imread in_path) (cv2_imread W in_path) ;;
  match bgr with
  | None => ret ("SKIP (unreadable): " ++ in_path)%string
  | Some _ =>
      try_except
        (bgra <- lift (remove_black_background_array cv bgr
                         threshold feather dilate_iters) ;;
         ok <- call (Imwrite out_path bgra) (cv2_imwrite W out_path bgra) ;;
         if negb ok then ret ("ERROR (write failed): " ++ out_path)%string
         else ret ("OK: " ++ out_path)%string)
        (fun e => ret ("ERROR (" ++ in_path ++ "): " ++ exn_msg e)%string)
  end.

Definition list_images (root : string) : list string :=
  flat_map
    (fun '(dirpath, filenames) =>
       flat_map
         (fun fn =>
            let ext := str.lower (snd (posixpath.splitext fn)) in
            if existsb (String.eqb ext) IMAGE_EXTS
            then [posixpath.join dirpath [fn]]
            else [])
         filenames)
    (os_walk W root).

(** The progress bar of [tqdm] is not part of the trace. *)
Definition main (args : Args) : M Z :=
  if negb (os_path_isdir W (args_input args)) then
    call (PrintErr ("Input folder does not exist: " ++ args_input args)%string)
         (Returns tt) ;;;
    ret 2
  else
    call (Makedirs (args_output args)) (os_makedirs W (args_output args)) ;;;
    let files := list_images (args_input args) in
    match files with
    | [] =>
        call (Print "No images found in the input folder.") (Returns tt) ;;;
        ret 0
    | _ :: _ =>
        (* ThreadPoolExecutor(max_workers=args.workers) *)
        lift (if args_workers args <=? 0
              then Raises (ValueError "max_workers must be greater than 0")
              else Returns tt) ;;;
        results <- pool_map
                     (fun f => process_one args f (args_output args)
                                 (args_threshold args) (args_feather args)
                                 (args_dilate args) (args_keep_structure args))
                     files ;;
        let ok := count_prefix "OK" results in
        let err := count_prefix "ERROR" results in
        let skip := count_prefix "SKIP" results in
        call (Print (summary_line ok err skip)) (Returns tt) ;;;
        ret 0
    end.

(** *** The path computation of [process_one] on its own *)

(** Line 60 of the script: the directory of the input relative to the
    input root, or the empty string.  [target_dir_of] is line 61 and
    [out_path_of] lines 63-64. *)
Definition rel_dir_of (args : Args) (in_path : string) (keep_structure : bool)
    : result string :=
  if keep_structure
  then posixpath.relpath (getcwd W) (posixpath.dirname in_path) (args_input args)
  else Returns EmptyString.

Definition stem_of (in_path : string) : string :=
  fst (posixpath.splitext (posixpath.basename in_path)).

Definition target_dir_of (args : Args) (in_path out_dir : string)
    (keep_structure : bool) : result string :=
  match rel_dir_of args in_path keep_structure with
  | Returns rel_dir => Returns (posixpath.join out_dir [rel_dir])
  | Raises e => Raises e
  end.

Definition out_path_of (args : Args) (in_path out_dir : string)
    (keep_structure : bool) : result string :=
  match target_dir_of args in_path out_dir keep_structure with
  | Returns target_dir =>
      Returns (posixpath.join target_dir [(stem_of in_path ++ ".png")%string])
  | Raises e => Raises e
  end.

End Script.

(** ** Vocabulary of the statements about outcomes *)

(** The outcome string counts under exactly one of the three tallies. *)
Definition one_prefix (s : string) : Prop :=
  (str.startswith s "OK" = true /\ str.startswith s "ERROR" = false
   /\ str.startswith s "SKIP" = false) \/
  (str.startswith s "OK" = false /\ str.startswith s "ERROR" = true
   /\ str.startswith s "SKIP" = false) \/
  (str.startswith s "OK" = false /\ str.startswith s "ERROR" = false
   /\ str.startswith s "SKIP" = true).

(** ** Vocabulary of the statements about paths *)

Fixpoint contains (c : ascii) (s : string) : bool :=
  match s with
  | EmptyString => false
  | String a t => Ascii.eqb a c || contains c t
  end.


(** A path component as [split] and the filter of [relpath] leave it. *)
Definition good_comp (s : string) : Prop :=
  s <> EmptyString /\ contains posixpath.sep s = false.

(** A relative path as [join] builds it from good components: not empty,
    no separator at either end. *)
Definition tidy (s : string) : Prop :=
  s <> EmptyString /\ str.startswith s "/" = false
  /\ str.endswith s posixpath.sep = false.

(** [out_dir] as [join] continues it: with a separator at its end unless it
    is empty. *)
Definition dir_prefix (out_dir : string) : string :=
  if (out_dir =? EmptyString)%string || str.endswith out_dir posixpath.sep
  then out_dir else (out_dir ++ "/")%string.

(** The run printed the summary with these three counts. *)
Definition reports_summary (t : list event) (ok err skip : nat) : Prop :=
  In (Print (summary_line ok err skip)) t.

(** The run called [cv2.imread] or [cv2.imwrite]. *)
Definition touches_images (t : list event) : Prop :=
  exists e, In e t /\
    match e with Imread _ | Imwrite _ _ => True | _ => False end.

(** ** Vocabulary of the statements about arrays *)

(** The "black-ish" rule of the script on one pixel. *)
Definition is_black (threshold : Z) (p : px3) : bool :=
  (b3 p <=? threshold) && (g3 p <=? threshold) && (r3 p <=? threshold).

Definition binary (v : Z) : Prop := v = 0 \/ v = 255.

Definition binary_plane (m : plane) : Prop :=
  forall i j v, at2 m i j = Some v -> binary v.

Definition uint8_plane (m : plane) : Prop :=
  forall i j v, at2 m i j = Some v -> 0 <= v <= 255.

(** [x] is below [y] cell by cell. *)
Definition plane_le (x y : plane) : Prop :=
  forall i j v w, at2 x i j = Some v -> at2 y i j = Some w -> v <= w.

(** The mask of lines 40-47 when the dilation is carried out: the cells of
    the black-ish pixels are 255, the others 0, and a positive [dilate]
    makes that many passes of the 3x3 maximum. *)
Definition background_mask (bgr : image3) (threshold dilate : Z) : plane :=
  let black_mask :=
    and_mask (and_mask (le_scalar (channel b3 bgr) threshold)
                       (le_scalar (channel g3 bgr) threshold))
             (le_scalar (channel r3 bgr) threshold) in
  let mask := astype_uint8_times_255 black_mask in
  if 0 <? dilate then Nat.iter (Z.to_nat dilate) dilate_once mask else mask.

(** Neither OpenCV call of lines 47 and 54 raises for this image and these
    settings: [cv2.dilate], if it is called, takes the count, and
    [cv2.GaussianBlur], if it is called, returns an array. *)
Definition opencv_returns (cv : OpenCV) (bgr : image3)
    (threshold feather dilate : Z) : Prop :=
  (0 < dilate ->
   dilate_error cv (background_mask bgr threshold 0) dilate = None) /\
  (feather_on feather = true ->
   exists alpha,
     GaussianBlur cv (bitwise_not (background_mask bgr threshold dilate)) feather
     = Returns alpha).

(** [alpha] is the plane lines 50-54 make of [mask]: its complement, blurred
    when [feather] is positive and odd. *)
Definition alpha_from_mask (cv : OpenCV) (mask : plane) (feather : Z)
    (alpha : plane) : Prop :=
  if feather_on feather
  then GaussianBlur cv (bitwise_not mask) feather = Returns alpha
  else alpha = bitwise_not mask.

(** ** A concrete library

    The properties below assume three facts of [cv2.GaussianBlur] for the
    calls that return: the result has the shape of its argument, it is a
    [uint8] array again, and a brighter argument gives a result that is
    nowhere darker.  The blur defined here has them; it instantiates the
    assumptions.  One pass is the 1-2-1 binomial filter in both directions,
    rounded to nearest, with the border mirrored the way OpenCV's default
    [BORDER_REFLECT_101] does; aperture [k] makes [(k-1)/2] passes, so
    aperture 1 leaves the array as it is. *)

(** [cv::borderInterpolate] for [BORDER_REFLECT_101], one reflection. *)
Definition reflect101 (len p : Z) : Z :=
  if len =? 1 then 0
  else if p <? 0 then - p
  else if len <=? p then 2 * len - 2 - p
  else p.

Definition rows {A} (m : grid A) : Z := Z.of_nat (List.length m).
Definition cols {A} (m : grid A) : Z := Z.of_nat (hd O (shape m)).

Definition cell_or_0 (m : plane) (i j : Z) : Z :=
  match at2 m i j with Some v => v | None => 0 end.

Definition binomial_px (m : plane) (i j : Z) : Z :=
  let g di dj :=
    cell_or_0 m (reflect101 (rows m) (i + di)) (reflect101 (cols m) (j + dj)) in
  (1 * g (-1) (-1) + 2 * g (-1) 0 + 1 * g (-1) 1 +
   2 * g 0 (-1) + 4 * g 0 0 + 2 * g 0 1 +
   1 * g 1 (-1) + 2 * g 1 0 + 1 * g 1 1 + 8) / 16.

Definition binomial_pass (m : plane) : plane := tabulate_like m (binomial_px m).

Definition binomial_blur (m : plane) (k : Z) : plane :=
  Nat.iter (Z.to_nat ((k - 1) / 2)) binomial_pass m.

(** The largest value of a C int. *)
Definition INT_MAX : Z := 2147483647.

(** A library that blurs with [binomial_blur], refuses an aperture or an
    iteration count that does not fit a C int, and has memory for the
    structuring element of at most 1000 iterations. *)
Definition sample_cv : OpenCV :=
  {| GaussianBlur := fun a k =>
       if k <=? INT_MAX then Returns (binomial_blur a k)
       else Raises (Exn "cv2.error" "Overload resolution failed");
     dilate_error := fun _ n =>
       if n <=? 1000 then None
       else if n <=? INT_MAX
            then Some (Exn "cv2.error" "Insufficient memory")
            else Some (Exn "cv2.error" "Overload resolution failed") |}.

(** ** Sample inputs *)

(** A 3x4 image: a dark background with a bright patch. *)
Definition sample_bgr : image3 :=
  [ [BGR 0 0 0;    BGR 5 5 5;       BGR 20 20 20;    BGR 0 0 0];
    [BGR 3 0 1;    BGR 200 10 10;   BGR 255 255 255; BGR 0 0 0];
    [BGR 0 0 0;    BGR 21 0 0;      BGR 0 19 20;     BGR 0 0 0] ].

(** A 4x6 image: three dark columns on the left side of a bright figure.
    The third column is black-ish for threshold 20 and not for 10. *)
Definition sample_sprite : image3 :=
  [ [BGR 0 0 0; BGR 5 5 5;   BGR 20 20 20; BGR 200 10 10; BGR 255 255 255; BGR 90 80 70];
    [BGR 3 0 1; BGR 0 0 0;   BGR 12 12 12; BGR 21 0 0;    BGR 40 50 60;    BGR 255 0 0];
    [BGR 0 0 0; BGR 10 0 10; BGR 0 19 20;  BGR 0 0 200;   BGR 30 30 30;    BGR 128 128 128];
    [BGR 1 1 1; BGR 0 0 0;   BGR 15 11 20; BGR 25 25 25;  BGR 0 255 0;     BGR 60 60 60] ].

(** The defaults of [parse_args]. *)
Definition default_args : Args :=
  MkArgs "." "./output" 20 3 1 4 false.

(** [--input ./in --output ./out], with and without [--keep-structure]. *)
Definition sample_args (keep_structure : bool) : Args :=
  MkArgs "./in" "./out" 20 3 1 4 keep_structure.

(** An input folder with two pictures, a text file, and a sub-folder that
    holds a picture and a file that does not decode. *)
Definition sample_world : World :=
  {| getcwd := "/home/u";
     os_path_isdir := fun p => (p =? "./in")%string;
     os_walk := fun root =>
       if (root =? "./in")%string
       then [ ("./in", ["a.jpg"; "notes.txt"; "b.PNG"]);
              ("./in/sub", ["img.jpg"; "broken.png"]) ]%string
       else [];
     os_makedirs := fun _ => Returns tt;
     cv2_imread := fun p =>
       if (p =? "./in/sub/broken.png")%string then Returns None
       else Returns (Some sample_bgr);
     cv2_imwrite := fun _ _ => Returns true |}.

(** The same folder when [./out/sub] exists as a regular file, so that
    creating it as a directory fails. *)
Definition blocked_world : World :=
  {| getcwd := getcwd sample_world;
     os_path_isdir := os_path_isdir sample_world;
     os_walk := os_walk sample_world;
     os_makedirs := fun p =>
       if (p =? "./out/sub")%string
       then Raises (Exn "FileExistsError" "[Errno 17] File exists: './out/sub'")
       else Returns tt;
     cv2_imread := cv2_imread sample_world;
     cv2_imwrite := cv2_imwrite sample_world |}.

(** An input folder without pictures. *)
Definition empty_world : World :=
  {| getcwd := "/home/u";
     os_path_isdir := fun p => (p =? "./in")%string;
     os_walk := fun root =>
       if (root =? "./in")%string then [ ("./in", ["readme.txt"]) ]%string
       else [];
     os_makedirs := fun _ => Returns tt;
     cv2_imread := fun _ => Returns None;
     cv2_imwrite := fun _ _ => Returns true |}.

(** A folder where two pictures share a stem, and two sub-folders that hold
    a picture of the same name. *)
Definition crowded_world : World :=
  {| getcwd := "/home/u";
     os_path_isdir := fun p => (p =? "./in")%string;
     os_walk := fun root =>
       if (root =? "./in")%string
       then [ ("./in", ["img.jpg"; "img.png"]);
              ("./in/a", ["pic.jpg"]);
              ("./in/b", ["pic.jpg"]) ]%string
       else [];
     os_makedirs := fun _ => Returns tt;
     cv2_imread := fun _ => Returns (Some sample_bgr);
     cv2_imwrite := fun _ _ => Returns true |}.

(** ** Vocabulary of the further statements *)

(** Lines 81-82 of the script: the test [list_images] makes on a file
    name. *)
Definition eligible (fn : string) : bool :=
  existsb (String.eqb (str.lower (snd (posixpath.splitext fn)))) IMAGE_EXTS.

(** All rows have [w] cells, as in a numpy array of shape (h, w). *)
Definition rectangular {A} (m : grid A) (w : nat) : Prop :=
  Forall (fun row => List.length row = w) m.

(** The cells (i, j) and (i', j') are at most [n] rows and [n] columns
    apart. *)
Definition near (n : nat) (i j i' j' : Z) : Prop :=
  Z.abs (i - i') <= Z.of_nat n /\ Z.abs (j - j') <= Z.of_nat n.

(** The paths a run handed to [cv2.imread], in the order of the trace. *)
Definition reads (t : list event) : list string :=
  flat_map (fun e => match e with Imread p => [p] | _ => [] end) t.

(** [cv2.imread] answers [None] for this path. *)
Definition unreadable (W : World) (path : string) : bool :=
  match cv2_imread W path with
  | Returns None => true
  | _ => false
  end.

(** What [process_one] does in each of its cases, as one decision tree over
    the answers of the world: lines 60-76 read top down. *)
Definition process_one_tree (cv : OpenCV) (W : World)
    (args : Args) (in_path out_dir : string)
    (threshold feather dilate_iters : Z) (keep_structure : bool) : M string :=
  match rel_dir_of W args in_path keep_structure with
  | Raises e => ([], Raises e)
  | Returns rel_dir =>
      let target_dir := posixpath.join out_dir [rel_dir] in
      match os_makedirs W target_dir with
      | Raises e => ([Makedirs target_dir], Raises e)
      | Returns _ =>
          let out_path :=
            posixpath.join target_dir [(stem_of in_path ++ ".png")%string] in
          match cv2_imread W in_path with
          | Raises e => ([Makedirs target_dir; Imread in_path], Raises e)
          | Returns None =>
              ([Makedirs target_dir; Imread in_path],
               Returns ("SKIP (unreadable): " ++ in_path)%string)
          | Returns (Some bgr) =>
              match remove_black_background_array cv (Some bgr)
                      threshold feather dilate_iters with
              | Raises e =>
                  ([Makedirs target_dir; Imread in_path],
                   Returns ("ERROR (" ++ in_path ++ "): " ++ exn_msg e)%string)
              | Returns bgra =>
                  ([Makedirs target_dir; Imread in_path; Imwrite out_path bgra],
                   match cv2_imwrite W out_path bgra with
                   | Raises e =>
                       Returns ("ERROR (" ++ in_path ++ "): " ++ exn_msg e)%string
                   | Returns false =>
                       Returns ("ERROR (write failed): " ++ out_path)%string
                   | Returns true => Returns ("OK: " ++ out_path)%string
                   end)
              end
          end
      end
  end.


(** What [remove_black_background_array] returns for the sample image with
    the default threshold, feather and dilate, under the sample library. *)
Definition sample_bgra : image4 :=
  set_alpha (cvtColor_BGR2BGRA sample_bgr)
    (binomial_blur (bitwise_not (background_mask sample_bgr 20 1)) 3).

(** [--input ./in --output ./out --dilate 5000]. *)
Definition greedy_args : Args := MkArgs "./in" "./out" 20 3 5000 4 false.

(** [--input ./in --output ./out --workers 0]. *)
Definition idle_args : Args := MkArgs "./in" "./out" 20 3 1 0 false.

(** A folder whose pictures go wrong in three ways: [empty.png] decodes to
    an array without pixels, [locked.png] cannot be written ([cv2.imwrite]
    returns [False]), and writing for [huge.png] raises. *)
Definition faulty_world : World :=
  {| getcwd := "/home/u";
     os_path_isdir := fun p => (p =? "./in")%string;
     os_walk := fun root =>
       if (root =? "./in")%string
       then [ ("./in", ["empty.png"; "locked.png"; "huge.png"; "fine.JPG"]) ]%string
       else [];
     os_makedirs := fun _ => Returns tt;
     cv2_imread := fun p =>
       if (p =? "./in/empty.png")%string then Returns (Some [[]])
       else Returns (Some sample_bgr);
     cv2_imwrite := fun p _ =>
       if (p =? "./out/locked.png")%string then Returns false
       else if (p =? "./out/huge.png")%string
            then Raises (Exn "cv2.error" "could not write image")
            else Returns true |}.

(* ===================================================================== *)
(** * Part II: properties                                                 *)
(* ===================================================================== *)

(** ** Arrays *)

Lemma mapi_from_length {A B} (f : nat -> A -> B) l k :
  List.length (mapi_from f k l) = List.length l.
Proof.
  revert k; induction l as [|x t IH]; intros k; simpl; [reflexivity|].
  now rewrite IH.
Qed.

Lemma nth_error_mapi_from {A B} (f : nat -> A -> B) l k n :
  nth_error (mapi_from f k l) n = option_map (f (k + n)%nat) (nth_error l n).
Proof.
  revert k n; induction l as [|x t IH]; intros k n; simpl.
  - now destruct n.
  - destruct n as [|n]; simpl.
    + now rewrite Nat.add_0_r.
    + rewrite IH. now replace (S k + n)%nat with (k + S n)%nat by lia.
Qed.

Lemma at2_tabulate_like {A B} (m : grid A) (f : Z -> Z -> B) i j :
  at2 (tabulate_like m f) i j = option_map (fun _ => f i j) (at2 m i j).
Proof.
  unfold at2, tabulate_like.
  destruct (i <? 0) eqn:Hi; [reflexivity|].
  destruct (j <? 0) eqn:Hj; [reflexivity|]. simpl.
  rewrite nth_error_mapi_from. simpl.
  destruct (nth_error m (Z.to_nat i)) as [row|]; simpl; [|reflexivity].
  rewrite nth_error_mapi_from. simpl.
  apply Z.ltb_ge in Hi, Hj. rewrite !Z2Nat.id by lia. reflexivity.
Qed.

Lemma shape_tabulate_like {A B} (m : grid A) (f : Z -> Z -> B) :
  shape (tabulate_like m f) = shape m.
Proof.
  unfold shape, tabulate_like. generalize O at 2.
  induction m as [|row t IH]; intros k; simpl; [reflexivity|].
  now rewrite mapi_from_length, IH.
Qed.

Lemma at2_map2d {A B} (f : A -> B) (m : grid A) i j :
  at2 (map2d f m) i j = option_map f (at2 m i j).
Proof.
  unfold at2, map2d.
  destruct ((i <? 0) || (j <? 0)); [reflexivity|].
  rewrite nth_error_map.
  destruct (nth_error m (Z.to_nat i)); simpl; [|reflexivity].
  now rewrite nth_error_map.
Qed.

Lemma shape_map2d {A B} (f : A -> B) (m : grid A) :
  shape (map2d f m) = shape m.
Proof.
  unfold shape, map2d. rewrite map_map.
  apply map_ext. intros row. apply length_map.
Qed.

Lemma nth_error_zip_with {A B C} (f : A -> B -> C) l l' n :
  nth_error (zip_with f l l') n =
  match nth_error l n, nth_error l' n with
  | Some x, Some y => Some (f x y)
  | _, _ => None
  end.
Proof.
  revert l' n; induction l as [|x t IH]; intros [|y t'] [|n]; simpl;
    try reflexivity.
  - now destruct (nth_error t n).
  - apply IH.
Qed.

Lemma at2_zip_with {A B C} (f : A -> B -> C) (x : grid A) (y : grid B) i j :
  at2 (zip_with (zip_with f) x y) i j =
  match at2 x i j, at2 y i j with
  | Some a, Some b => Some (f a b)
  | _, _ => None
  end.
Proof.
  unfold at2. destruct ((i <? 0) || (j <? 0)); [reflexivity|].
  rewrite nth_error_zip_with.
  destruct (nth_error x (Z.to_nat i)) as [rx|]; [|reflexivity].
  destruct (nth_error y (Z.to_nat i)) as [ry|].
  - apply nth_error_zip_with.
  - now destruct (nth_error rx (Z.to_nat j)).
Qed.

Lemma zip_with_length {A B C} (f : A -> B -> C) l l' :
  List.length l = List.length l' ->
  List.length (zip_with f l l') = List.length l.
Proof.
  revert l'; induction l as [|x t IH]; intros [|y t'] H; simpl in *;
    try reflexivity; try discriminate.
  f_equal. apply IH. lia.
Qed.

Lemma shape_zip_with {A B C} (f : A -> B -> C) (x : grid A) (y : grid B) :
  shape x = shape y -> shape (zip_with (zip_with f) x y) = shape x.
Proof.
  unfold shape. revert y; induction x as [|rx t IH]; intros [|ry t'] H;
    simpl in *; try reflexivity; try discriminate.
  injection H as Hr Ht. now rewrite zip_with_length, IH.
Qed.

(** A grid with a cell is not empty. *)
Lemma at2_Some_cells {A} (m : grid A) i j v :
  at2 m i j = Some v -> (0 < cells m)%nat.
Proof.
  unfold at2, cells, shape. destruct ((i <? 0) || (j <? 0)); [discriminate|].
  generalize (Z.to_nat i) as n. induction m as [|row t IH]; intros n H.
  - now destruct n.
  - destruct n as [|n]; simpl in *.
    + destruct row; [ destruct (Z.to_nat j); discriminate | simpl; lia ].
    + specialize (IH n H). lia.
Qed.

Lemma at2_Some_size3 (bgr : image3) i j p :
  at2 bgr i j = Some p -> (size3 bgr =? 0) = false.
Proof.
  intros H. apply at2_Some_cells in H. unfold size3.
  apply Z.eqb_neq. lia.
Qed.

(** Two grids of one shape have their cells at the same places. *)
Lemma at2_same_shape {A B} (x : grid A) (y : grid B) i j v :
  shape x = shape y -> at2 x i j = Some v -> exists w, at2 y i j = Some w.
Proof.
  unfold at2, shape. destruct ((i <? 0) || (j <? 0)); [discriminate|].
  generalize (Z.to_nat i) as n. revert y.
  induction x as [|rx t IH]; intros [|ry t'] n Hs H; simpl in *;
    try discriminate; try (now destruct n).
  injection Hs as Hr Ht. destruct n as [|n]; simpl in *.
  - assert (Hlt : (Z.to_nat j < List.length ry)%nat).
    { rewrite <- Hr. apply nth_error_Some. now rewrite H. }
    destruct (nth_error ry (Z.to_nat j)) eqn:E; [eauto|].
    apply nth_error_None in E. lia.
  - eapply IH; eauto.
Qed.

(** A grid is its table of cells: equal shapes and equal cells give equal
    grids. *)
Lemma grid_ext {A} (x y : grid A) :
  shape x = shape y ->
  (forall i j, at2 x i j = at2 y i j) ->
  x = y.
Proof.
  revert y; induction x as [|rx t IH]; intros [|ry t'] Hs H;
    try reflexivity; try discriminate.
  injection Hs as Hr Ht. f_equal.
  - apply nth_error_ext. intros n. specialize (H 0 (Z.of_nat n)).
    unfold at2 in H. simpl in H.
    destruct (Z.of_nat n <? 0) eqn:E; [apply Z.ltb_lt in E; lia|].
    now rewrite Nat2Z.id in H.
  - apply IH; [exact Ht|]. intros i j. specialize (H (i + 1) j).
    unfold at2 in *.
    destruct (i <? 0) eqn:Ei; simpl.
    + reflexivity.
    + apply Z.ltb_ge in Ei.
      assert (E1 : (i + 1 <? 0) = false) by (apply Z.ltb_ge; lia).
      rewrite E1 in H. simpl in H.
      destruct (j <? 0); [reflexivity|].
      replace (Z.to_nat (i + 1)) with (S (Z.to_nat i)) in H by lia.
      exact H.
Qed.

(** ** The mask, its dilation and its complement *)

Lemma at2_threshold_mask (bgr : image3) threshold i j :
  at2 (background_mask bgr threshold 0) i j =
  option_map (fun p => if is_black threshold p then 255 else 0) (at2 bgr i j).
Proof.
  unfold background_mask, astype_uint8_times_255, and_mask, le_scalar, channel.
  simpl. rewrite at2_map2d, !at2_zip_with, !at2_map2d.
  destruct (at2 bgr i j) as [p|]; simpl; [|reflexivity].
  unfold is_black.
  now destruct (b3 p <=? threshold), (g3 p <=? threshold), (r3 p <=? threshold).
Qed.

Lemma shape_threshold_mask (bgr : image3) threshold :
  shape (background_mask bgr threshold 0) = shape bgr.
Proof.
  unfold background_mask, astype_uint8_times_255, and_mask, le_scalar, channel.
  simpl. rewrite shape_map2d.
  assert (H : forall c c' : px3 -> Z,
             shape (map2d (fun v => v <=? threshold) (map2d c bgr)) =
             shape (map2d (fun v => v <=? threshold) (map2d c' bgr)))
    by (intros; now rewrite !shape_map2d).
  rewrite shape_zip_with; rewrite shape_zip_with; rewrite ?shape_map2d;
    auto using H.
Qed.

Lemma not8_0 : not8 0 = 255.
Proof. reflexivity. Qed.

Lemma not8_255 : not8 255 = 0.
Proof. reflexivity. Qed.

Lemma not8_binary v : binary v -> binary (not8 v).
Proof. intros [-> | ->]; [right | left]; reflexivity. Qed.

Lemma In_neighbourhood (m : plane) i j v :
  In v (neighbourhood m i j) <->
  exists di dj, In di offsets3 /\ In dj offsets3 /\
                at2 m (i + di) (j + dj) = Some v.
Proof.
  unfold neighbourhood. rewrite in_flat_map. split.
  - intros (di & Hdi & H). apply in_flat_map in H as (dj & Hdj & H).
    exists di, dj. repeat split; trivial.
    destruct (at2 m (i + di) (j + dj)); simpl in H; [|contradiction].
    destruct H as [-> | []]. reflexivity.
  - intros (di & dj & Hdi & Hdj & H). exists di. split; [trivial|].
    apply in_flat_map. exists dj. split; [trivial|]. rewrite H. now left.
Qed.

Lemma fold_max_ge (l : list Z) v : In v l -> v <= fold_right Z.max 0 l.
Proof.
  induction l as [|x t IH]; simpl; [contradiction|].
  intros [-> | H]; [lia | specialize (IH H); lia].
Qed.

Lemma fold_max_in (l : list Z) :
  fold_right Z.max 0 l = 0 \/ In (fold_right Z.max 0 l) l.
Proof.
  induction l as [|x t IH]; simpl; [now left|].
  destruct (Z.max_spec x (fold_right Z.max 0 t)) as [[_ E] | [_ E]];
    rewrite E; [|now right; left].
  destruct IH as [IH | IH]; [now left | now right; right].
Qed.

Lemma fold_max_mono (l l' : list Z) :
  (forall v, In v l -> exists w, In w l' /\ v <= w) ->
  fold_right Z.max 0 l <= fold_right Z.max 0 l'.
Proof.
  intros H. destruct (fold_max_in l) as [E | Hin].
  - rewrite E. clear. induction l' as [|x t IH]; simpl; lia.
  - destruct (H _ Hin) as (w & Hw & Hle).
    pose proof (fold_max_ge l' w Hw). lia.
Qed.

Lemma at2_dilate_once (m : plane) i j :
  at2 (dilate_once m) i j = option_map (fun _ => dilate_px m i j) (at2 m i j).
Proof. apply at2_tabulate_like. Qed.

Lemma shape_dilate_once (m : plane) : shape (dilate_once m) = shape m.
Proof. apply shape_tabulate_like. Qed.

(** One pass of the dilation never lowers a cell: the centre of the 3x3
    element is part of the neighbourhood. *)
Lemma dilate_once_extensive (m : plane) : plane_le m (dilate_once m).
Proof.
  intros i j v w Hv Hw. rewrite at2_dilate_once, Hv in Hw. simpl in Hw.
  injection Hw as <-. apply fold_max_ge, In_neighbourhood.
  exists 0, 0. rewrite !Z.add_0_r. unfold offsets3. simpl. auto.
Qed.

Lemma dilate_once_binary (m : plane) :
  binary_plane m -> binary_plane (dilate_once m).
Proof.
  intros Hm i j v Hv. rewrite at2_dilate_once in Hv.
  destruct (at2 m i j); simpl in Hv; [|discriminate]. injection Hv as <-.
  unfold dilate_px. destruct (fold_max_in (neighbourhood m i j)) as [E | Hin].
  - now left.
  - apply In_neighbourhood in Hin as (di & dj & _ & _ & H). eapply Hm, H.
Qed.

(** One pass is monotone in the mask. *)
Lemma dilate_once_mono (x y : plane) :
  shape x = shape y -> plane_le x y -> plane_le (dilate_once x) (dilate_once y).
Proof.
  intros Hs Hle i j v w Hv Hw. rewrite at2_dilate_once in Hv, Hw.
  destruct (at2 x i j); simpl in Hv; [|discriminate].
  destruct (at2 y i j); simpl in Hw; [|discriminate].
  injection Hv as <-. injection Hw as <-.
  apply fold_max_mono. intros v Hin.
  apply In_neighbourhood in Hin as (di & dj & Hdi & Hdj & H).
  destruct (at2_same_shape x y _ _ _ Hs H) as (w & Hw).
  exists w. split; [|eapply Hle; eauto].
  apply In_neighbourhood. eauto.
Qed.

Lemma shape_iter_dilate (m : plane) n :
  shape (Nat.iter n dilate_once m) = shape m.
Proof.
  induction n as [|n IH]; simpl; [reflexivity|].
  now rewrite shape_dilate_once.
Qed.

Lemma iter_dilate_binary (m : plane) n :
  binary_plane m -> binary_plane (Nat.iter n dilate_once m).
Proof.
  intros H. induction n as [|n IH]; simpl; [exact H|].
  now apply dilate_once_binary.
Qed.

Lemma plane_le_trans (x y z : plane) :
  shape x = shape y -> plane_le x y -> plane_le y z -> plane_le x z.
Proof.
  intros Hs Hxy Hyz i j v w Hv Hw.
  destruct (at2_same_shape x y _ _ _ Hs Hv) as (u & Hu).
  specialize (Hxy _ _ _ _ Hv Hu). specialize (Hyz _ _ _ _ Hu Hw). lia.
Qed.

(** More passes give a larger mask. *)
Lemma iter_dilate_le (m : plane) n k :
  plane_le (Nat.iter n dilate_once m) (Nat.iter (k + n) dilate_once m).
Proof.
  induction k as [|k IH]; simpl.
  - intros i j v w Hv Hw. rewrite Hv in Hw. injection Hw as <-. lia.
  - eapply plane_le_trans; [| exact IH | apply dilate_once_extensive].
    now rewrite !shape_iter_dilate.
Qed.

(** [background_mask] in terms of the number of passes really made. *)
Lemma background_mask_iter (bgr : image3) threshold dilate :
  background_mask bgr threshold dilate =
  Nat.iter (Z.to_nat dilate) dilate_once (background_mask bgr threshold 0).
Proof.
  unfold background_mask. simpl.
  destruct (0 <? dilate) eqn:E; [reflexivity|].
  apply Z.ltb_ge in E. now replace (Z.to_nat dilate) with O by lia.
Qed.

Lemma threshold_mask_binary (bgr : image3) threshold :
  binary_plane (background_mask bgr threshold 0).
Proof.
  intros i j v H. rewrite at2_threshold_mask in H.
  destruct (at2 bgr i j) as [p|]; simpl in H; [|discriminate].
  injection H as <-. destruct (is_black threshold p); [now right | now left].
Qed.

Lemma background_mask_binary (bgr : image3) threshold dilate :
  binary_plane (background_mask bgr threshold dilate).
Proof.
  rewrite background_mask_iter.
  apply iter_dilate_binary, threshold_mask_binary.
Qed.

Lemma shape_background_mask (bgr : image3) threshold dilate :
  shape (background_mask bgr threshold dilate) = shape bgr.
Proof.
  rewrite background_mask_iter, shape_iter_dilate.
  apply shape_threshold_mask.
Qed.

Lemma background_mask_mono (bgr : image3) threshold d1 d2 :
  d1 <= d2 ->
  plane_le (background_mask bgr threshold d1) (background_mask bgr threshold d2).
Proof.
  intros H.
  rewrite (background_mask_iter bgr threshold d1),
    (background_mask_iter bgr threshold d2).
  replace (Z.to_nat d2) with ((Z.to_nat d2 - Z.to_nat d1) + Z.to_nat d1)%nat
    by lia.
  apply iter_dilate_le.
Qed.

Lemma bitwise_not_binary (m : plane) :
  binary_plane m -> binary_plane (bitwise_not m).
Proof.
  intros H i j v Hv. unfold bitwise_not in Hv. rewrite at2_map2d in Hv.
  destruct (at2 m i j) as [u|] eqn:E; simpl in Hv; [|discriminate].
  injection Hv as <-. eapply not8_binary, H, E.
Qed.

(** The complement reverses the order of binary masks. *)
Lemma bitwise_not_antitone (x y : plane) :
  binary_plane x -> binary_plane y -> plane_le x y ->
  plane_le (bitwise_not y) (bitwise_not x).
Proof.
  intros Hx Hy Hle i j v w Hv Hw. unfold bitwise_not in *.
  rewrite at2_map2d in Hv, Hw.
  destruct (at2 y i j) as [b|] eqn:Eb; simpl in Hv; [|discriminate].
  destruct (at2 x i j) as [a|] eqn:Ea; simpl in Hw; [|discriminate].
  injection Hv as <-. injection Hw as <-.
  specialize (Hle _ _ _ _ Ea Eb).
  destruct (Hx _ _ _ Ea) as [-> | ->], (Hy _ _ _ Eb) as [-> | ->];
    rewrite ?not8_0, ?not8_255; lia.
Qed.

Lemma binary_uint8 (m : plane) : binary_plane m -> uint8_plane m.
Proof. intros H i j v Hv. destruct (H _ _ _ Hv) as [-> | ->]; lia. Qed.

Lemma shape_bitwise_not (m : plane) : shape (bitwise_not m) = shape m.
Proof. apply shape_map2d. Qed.

Lemma feather_on_spec feather :
  feather_on feather = true <-> 0 < feather /\ Z.odd feather = true.
Proof.
  unfold feather_on. rewrite !andb_true_iff, negb_true_iff.
  rewrite Z.eqb_neq, Z.ltb_lt, Z.eqb_eq, Zmod_odd.
  destruct (Z.odd feather); intuition (try discriminate; lia).
Qed.

Lemma feather_off_spec feather :
  feather_on feather = false <-> feather <= 0 \/ Z.even feather = true.
Proof.
  rewrite <- not_true_iff_false, feather_on_spec, <- Z.negb_odd.
  destruct (Z.odd feather); simpl; intuition (try discriminate; lia).
Qed.

(** ** The array returned by remove_black_background_array *)

Lemma set_alpha_colour (bgr : image3) (alpha : plane) :
  shape alpha = shape bgr ->
  colour_of (set_alpha (cvtColor_BGR2BGRA bgr) alpha) = bgr.
Proof.
  intros Hs. unfold colour_of, set_alpha, cvtColor_BGR2BGRA.
  apply grid_ext.
  - rewrite shape_map2d, shape_zip_with; rewrite shape_map2d; auto.
  - intros i j. rewrite at2_map2d, at2_zip_with, at2_map2d.
    destruct (at2 bgr i j) as [p|] eqn:Ep; simpl; [|reflexivity].
    destruct (at2_same_shape bgr alpha _ _ _ (eq_sym Hs) Ep) as (a & ->).
    simpl. now destruct p.
Qed.

Lemma set_alpha_alpha (bgr : image3) (alpha : plane) :
  shape alpha = shape bgr ->
  alpha_of (set_alpha (cvtColor_BGR2BGRA bgr) alpha) = alpha.
Proof.
  intros Hs. unfold alpha_of, set_alpha, cvtColor_BGR2BGRA.
  apply grid_ext.
  - rewrite shape_map2d, shape_zip_with; rewrite shape_map2d; auto.
  - intros i j. rewrite at2_map2d, at2_zip_with, at2_map2d.
    destruct (at2 alpha i j) as [a|] eqn:Ea.
    + destruct (at2_same_shape alpha bgr _ _ _ Hs Ea) as (p & ->).
      reflexivity.
    + now destruct (at2 bgr i j).
Qed.

Lemma set_alpha_shape (bgr : image3) (alpha : plane) :
  shape alpha = shape bgr ->
  shape (set_alpha (cvtColor_BGR2BGRA bgr) alpha) = shape bgr.
Proof.
  intros Hs. unfold set_alpha, cvtColor_BGR2BGRA.
  rewrite shape_zip_with; rewrite shape_map2d; auto.
Qed.

Lemma at2_set_alpha (bgr : image3) (alpha : plane) i j :
  at2 (set_alpha (cvtColor_BGR2BGRA bgr) alpha) i j =
  match at2 bgr i j, at2 alpha i j with
  | Some p, Some a => Some (BGRA (b3 p) (g3 p) (r3 p) a)
  | _, _ => None
  end.
Proof.
  unfold set_alpha, cvtColor_BGR2BGRA. rewrite at2_zip_with, at2_map2d.
  now destruct (at2 bgr i j).
Qed.

Lemma not8_binary_sub v : binary v -> not8 v = 255 - v.
Proof. now intros [-> | ->]. Qed.

Section PixelMaskerFacts.

Variable cv : OpenCV.

(** What is assumed of [cv2.GaussianBlur] on an odd positive aperture, for
    the calls that return. *)
Hypothesis GaussianBlur_shape :
  forall a k b, feather_on k = true ->
    GaussianBlur cv a k = Returns b -> shape b = shape a.
Hypothesis GaussianBlur_uint8 :
  forall a k b, feather_on k = true -> uint8_plane a ->
    GaussianBlur cv a k = Returns b -> uint8_plane b.
Hypothesis GaussianBlur_mono :
  forall a b k a' b', feather_on k = true ->
    uint8_plane a -> uint8_plane b -> shape a = shape b -> plane_le a b ->
    GaussianBlur cv a k = Returns a' -> GaussianBlur cv b k = Returns b' ->
    plane_le a' b'.

#[local] Abbreviation rbba := (remove_black_background_array cv).

(** The call on a non-empty image, in terms of [background_mask]. *)
Lemma rbba_unfold (bgr : image3) threshold feather dilate :
  size3 bgr <> 0 ->
  rbba (Some bgr) threshold feather dilate =
  and_then
    (if 0 <? dilate
     then match dilate_error cv (background_mask bgr threshold 0) dilate with
          | Some e => Raises e
          | None => Returns (background_mask bgr threshold dilate)
          end
     else Returns (background_mask bgr threshold dilate))
    (fun mask =>
       and_then (if feather_on feather
                 then GaussianBlur cv (bitwise_not mask) feather
                 else Returns (bitwise_not mask))
         (fun alpha => Returns (set_alpha (cvtColor_BGR2BGRA bgr) alpha))).
Proof.
  intros H. apply Z.eqb_neq in H.
  unfold remove_black_background_array, background_mask, cv2_dilate.
  rewrite H. cbv zeta. change (0 <? 0) with false. cbv iota.
  destruct (0 <? dilate); [destruct (dilate_error _ _ _)|]; reflexivity.
Qed.

(** A call that returns was made on a non-empty image, no OpenCV call
    raised, and the result is the BGRA copy with the computed alpha. *)
Lemma rbba_inv (bgr : image3) threshold feather dilate out :
  rbba (Some bgr) threshold feather dilate = Returns out ->
  size3 bgr <> 0 /\
  opencv_returns cv bgr threshold feather dilate /\
  exists alpha,
    alpha_from_mask cv (background_mask bgr threshold dilate) feather alpha /\
    out = set_alpha (cvtColor_BGR2BGRA bgr) alpha.
Proof.
  intros H.
  assert (Hs : size3 bgr <> 0).
  { intros E. unfold remove_black_background_array in H.
    rewrite E in H. discriminate. }
  split; [exact Hs|]. rewrite (rbba_unfold _ _ _ _ Hs) in H.
  unfold opencv_returns, alpha_from_mask.
  assert (Hd : (0 < dilate ->
                dilate_error cv (background_mask bgr threshold 0) dilate = None)
               /\ and_then
                    (if feather_on feather
                     then GaussianBlur cv
                            (bitwise_not (background_mask bgr threshold dilate))
                            feather
                     else Returns
                            (bitwise_not (background_mask bgr threshold dilate)))
                    (fun alpha =>
                       Returns (set_alpha (cvtColor_BGR2BGRA bgr) alpha))
                  = Returns out).
  { destruct (0 <? dilate) eqn:Ed.
    - destruct (dilate_error cv _ dilate) as [e|]; [discriminate|].
      split; [reflexivity | exact H].
    - apply Z.ltb_ge in Ed. split; [lia | exact H]. }
  clear H. destruct Hd as [Hd H].
  destruct (feather_on feather).
  - destruct (GaussianBlur cv _ feather) as [a|e]; [|discriminate].
    injection H as <-. repeat split; eauto; discriminate.
  - injection H as <-. repeat split; eauto; discriminate.
Qed.

Lemma rbba_returns (bgr : image3) threshold feather dilate :
  size3 bgr <> 0 ->
  opencv_returns cv bgr threshold feather dilate ->
  exists out, rbba (Some bgr) threshold feather dilate = Returns out.
Proof.
  intros Hs [Hd Hf]. rewrite (rbba_unfold _ _ _ _ Hs).
  assert (E : (if 0 <? dilate
               then match dilate_error cv (background_mask bgr threshold 0)
                            dilate with
                    | Some e => Raises e
                    | None => Returns (background_mask bgr threshold dilate)
                    end
               else Returns (background_mask bgr threshold dilate))
              = Returns (background_mask bgr threshold dilate)).
  { destruct (0 <? dilate) eqn:Ed; [|reflexivity].
    apply Z.ltb_lt in Ed. now rewrite (Hd Ed). }
  rewrite E. cbn [and_then].
  destruct (feather_on feather); [|eexists; reflexivity].
  destruct (Hf eq_refl) as (alpha & ->). eexists. reflexivity.
Qed.

(** Past a dilation that is carried out. *)
Lemma rbba_dilated (bgr : image3) threshold feather dilate :
  size3 bgr <> 0 ->
  (0 < dilate ->
   dilate_error cv (background_mask bgr threshold 0) dilate = None) ->
  rbba (Some bgr) threshold feather dilate =
  and_then
    (if feather_on feather
     then GaussianBlur cv (bitwise_not (background_mask bgr threshold dilate))
            feather
     else Returns (bitwise_not (background_mask bgr threshold dilate)))
    (fun alpha => Returns (set_alpha (cvtColor_BGR2BGRA bgr) alpha)).
Proof.
  intros Hs Hd. rewrite (rbba_unfold _ _ _ _ Hs).
  destruct (0 <? dilate) eqn:Ed; [|reflexivity].
  apply Z.ltb_lt in Ed. now rewrite (Hd Ed).
Qed.

(** A dilation that is refused ends the call. *)
Lemma rbba_dilate_raises (bgr : image3) threshold feather dilate e :
  size3 bgr <> 0 -> 0 < dilate ->
  dilate_error cv (background_mask bgr threshold 0) dilate = Some e ->
  rbba (Some bgr) threshold feather dilate = Raises e.
Proof.
  intros Hs Hd He. rewrite (rbba_unfold _ _ _ _ Hs).
  apply Z.ltb_lt in Hd. now rewrite Hd, He.
Qed.

Lemma alpha_from_mask_shape (m : plane) feather alpha :
  alpha_from_mask cv m feather alpha -> shape alpha = shape m.
Proof.
  unfold alpha_from_mask. destruct (feather_on feather) eqn:E.
  - intros H. rewrite (GaussianBlur_shape _ _ _ E H). apply shape_bitwise_not.
  - intros ->. apply shape_bitwise_not.
Qed.

Lemma alpha_from_mask_uint8 (m : plane) feather alpha :
  binary_plane m -> alpha_from_mask cv m feather alpha -> uint8_plane alpha.
Proof.
  intros Hm. pose proof (binary_uint8 _ (bitwise_not_binary _ Hm)) as H.
  unfold alpha_from_mask. destruct (feather_on feather) eqn:E.
  - intros Hg. eapply GaussianBlur_uint8; eauto.
  - now intros ->.
Qed.

(** The alpha plane is antitone in the mask. *)
Lemma alpha_from_mask_antitone (m1 m2 : plane) feather a1 a2 :
  binary_plane m1 -> binary_plane m2 -> shape m1 = shape m2 ->
  plane_le m1 m2 ->
  alpha_from_mask cv m1 feather a1 -> alpha_from_mask cv m2 feather a2 ->
  plane_le a2 a1.
Proof.
  intros B1 B2 Hs Hle.
  pose proof (bitwise_not_antitone _ _ B1 B2 Hle) as Hn.
  unfold alpha_from_mask. destruct (feather_on feather) eqn:E.
  - intros H1 H2.
    apply (GaussianBlur_mono (bitwise_not m2) (bitwise_not m1) feather);
      trivial.
    + now apply binary_uint8, bitwise_not_binary.
    + now apply binary_uint8, bitwise_not_binary.
    + now rewrite !shape_bitwise_not.
  - now intros -> ->.
Qed.

(** A larger mask lowers the alpha of the result, pixel by pixel. *)
Lemma alpha_grows (bgr : image3) (m1 m2 : plane) feather a1 a2 :
  binary_plane m1 -> binary_plane m2 ->
  shape m1 = shape bgr -> shape m2 = shape bgr -> plane_le m1 m2 ->
  alpha_from_mask cv m1 feather a1 -> alpha_from_mask cv m2 feather a2 ->
  forall i j q1,
    at2 (set_alpha (cvtColor_BGR2BGRA bgr) a1) i j = Some q1 ->
    exists q2,
      at2 (set_alpha (cvtColor_BGR2BGRA bgr) a2) i j = Some q2 /\
      0 <= a4 q2 <= a4 q1.
Proof.
  intros B1 B2 S1 S2 Hle H1 H2 i j q1 Hq1. rewrite at2_set_alpha in *.
  destruct (at2 bgr i j) as [p|] eqn:Ep; [|discriminate].
  destruct (at2 a1 i j) as [v1|] eqn:E1; [|discriminate].
  injection Hq1 as <-.
  destruct (at2_same_shape bgr a2 i j p) as (v2 & E2);
    [now rewrite (alpha_from_mask_shape _ _ _ H2) | exact Ep |].
  rewrite E2. eexists. split; [reflexivity|]. cbn [a4].
  pose proof (alpha_from_mask_antitone m1 m2 feather a1 a2 B1 B2
                (eq_trans S1 (eq_sym S2)) Hle H1 H2 _ _ _ _ E2 E1).
  pose proof (alpha_from_mask_uint8 m2 feather a2 B2 H2 _ _ _ E2).
  lia.
Qed.

(** C1. With [dilate = 0] and [feather = 0], every pixel of the input has
    a pixel in the result whose alpha is 0 exactly when its three channels
    are all at most [threshold], and 255 exactly when one of them is above
    it. *)
Theorem threshold_decides_alpha (bgr : image3) (threshold : Z) :
  forall i j p, at2 bgr i j = Some p ->
  exists out q,
    rbba (Some bgr) threshold 0 0 = Returns out /\
    at2 out i j = Some q /\
    (a4 q = 0 <->
       b3 p <= threshold /\ g3 p <= threshold /\ r3 p <= threshold) /\
    (a4 q = 255 <->
       threshold < b3 p \/ threshold < g3 p \/ threshold < r3 p).
Proof.
  intros i j p Hp.
  assert (Hs : size3 bgr <> 0)
    by (apply Z.eqb_neq, (at2_Some_size3 _ _ _ _ Hp)).
  rewrite (rbba_unfold _ _ _ _ Hs).
  change (0 <? 0) with false. change (feather_on 0) with false.
  cbn [and_then].
  eexists. eexists. split; [reflexivity|].
  rewrite at2_set_alpha, Hp.
  unfold bitwise_not. rewrite at2_map2d, at2_threshold_mask, Hp. simpl.
  split; [reflexivity|]. simpl. unfold is_black.
  destruct (Z.leb_spec (b3 p) threshold), (Z.leb_spec (g3 p) threshold),
    (Z.leb_spec (r3 p) threshold); simpl;
    rewrite ?not8_0, ?not8_255; split; split; intros; try lia;
    intuition lia.
Qed.

(** C2. On a non-empty image the call returns exactly when neither
    [cv2.dilate] nor [cv2.GaussianBlur] raises.  Whenever it returns, under
    every configuration, the array has the shape of the input and its
    colour channels are the input, pixel for pixel; only the alpha channel
    is computed. *)
Theorem colours_and_shape_kept (bgr : image3) (cfg : Args) :
  size3 bgr <> 0 ->
  ((exists out,
      rbba (Some bgr) (args_threshold cfg) (args_feather cfg) (args_dilate cfg)
        = Returns out) <->
   opencv_returns cv bgr (args_threshold cfg) (args_feather cfg)
     (args_dilate cfg)) /\
  forall out,
    rbba (Some bgr) (args_threshold cfg) (args_feather cfg) (args_dilate cfg)
      = Returns out ->
    shape out = shape bgr /\
    colour_of out = bgr /\
    (forall i j p, at2 bgr i j = Some p ->
       exists q, at2 out i j = Some q /\
                 b4 q = b3 p /\ g4 q = g3 p /\ r4 q = r3 p).
Proof.
  intros H. split.
  - split.
    + intros (out & E). now apply rbba_inv in E.
    + now apply rbba_returns.
  - intros out E. apply rbba_inv in E as (_ & _ & alpha & Ha & ->).
    apply alpha_from_mask_shape in Ha as Hs.
    rewrite shape_background_mask in Hs.
    split; [now apply set_alpha_shape|].
    split; [now apply set_alpha_colour|].
    intros i j p Hp. rewrite at2_set_alpha, Hp.
    destruct (at2_same_shape bgr _ _ _ _ (eq_sym Hs) Hp) as (a & ->).
    eexists. split; [reflexivity|]. simpl. auto.
Qed.

(** C3. With [threshold] and [feather] fixed and [d1 <= d2], whenever the
    calls for [dilate = d1] and [dilate = d2] return, every pixel that is
    transparent (alpha 0) in the result for [d1] is transparent in the
    result for [d2].  Both calls return when OpenCV raises in neither. *)
Theorem dilate_grows_transparency (bgr : image3) (threshold feather d1 d2 : Z) :
  size3 bgr <> 0 ->
  d1 <= d2 ->
  (opencv_returns cv bgr threshold feather d1 ->
   opencv_returns cv bgr threshold feather d2 ->
   exists out1 out2,
     rbba (Some bgr) threshold feather d1 = Returns out1 /\
     rbba (Some bgr) threshold feather d2 = Returns out2) /\
  forall out1 out2,
    rbba (Some bgr) threshold feather d1 = Returns out1 ->
    rbba (Some bgr) threshold feather d2 = Returns out2 ->
    forall i j q1, at2 out1 i j = Some q1 -> a4 q1 = 0 ->
      exists q2, at2 out2 i j = Some q2 /\ a4 q2 = 0.
Proof.
  intros H Hd. split.
  - intros A1 A2.
    destruct (rbba_returns _ _ _ _ H A1) as (out1 & E1).
    destruct (rbba_returns _ _ _ _ H A2) as (out2 & E2).
    now exists out1, out2.
  - intros out1 out2 E1 E2 i j q1 Hq1 Ha.
    apply rbba_inv in E1 as (_ & _ & a1 & H1 & ->).
    apply rbba_inv in E2 as (_ & _ & a2 & H2 & ->).
    destruct (alpha_grows bgr _ _ feather a1 a2
                (background_mask_binary bgr threshold d1)
                (background_mask_binary bgr threshold d2)
                (shape_background_mask bgr threshold d1)
                (shape_background_mask bgr threshold d2)
                (background_mask_mono bgr threshold d1 d2 Hd)
                H1 H2 i j q1 Hq1) as (q2 & Hq2 & Hle).
    exists q2. split; [exact Hq2 | lia].
Qed.

(** C4. Whenever the call returns, the alpha channel of the result is the
    blur of the inverted mask when [feather] is positive and odd; when
    [feather] is zero, negative or even it is the inverted (possibly
    dilated) mask as it is, with no value other than 0 and 255.  The
    inverted mask holds 0 where the mask holds 255 and 255 where it holds
    0. *)
Theorem feather_gates_blur (bgr : image3) (threshold feather dilate : Z) :
  size3 bgr <> 0 ->
  (opencv_returns cv bgr threshold feather dilate ->
   exists out, rbba (Some bgr) threshold feather dilate = Returns out) /\
  forall out,
    rbba (Some bgr) threshold feather dilate = Returns out ->
    exists inverted,
      shape inverted = shape bgr /\
      (forall i j,
         at2 inverted i j =
         option_map (fun v => 255 - v)
           (at2 (background_mask bgr threshold dilate) i j)) /\
      binary_plane inverted /\
      (0 < feather /\ Z.odd feather = true ->
         GaussianBlur cv inverted feather = Returns (alpha_of out)) /\
      (feather <= 0 \/ Z.even feather = true ->
         alpha_of out = inverted /\ binary_plane (alpha_of out)).
Proof.
  intros H. split; [now apply rbba_returns|].
  intros out E. apply rbba_inv in E as (_ & _ & alpha & Ha & ->).
  apply alpha_from_mask_shape in Ha as Hs.
  rewrite shape_background_mask in Hs. rewrite (set_alpha_alpha _ _ Hs).
  pose proof (background_mask_binary bgr threshold dilate) as Hb.
  exists (bitwise_not (background_mask bgr threshold dilate)).
  split; [now rewrite shape_bitwise_not, shape_background_mask|].
  split.
  { intros i j. unfold bitwise_not. rewrite at2_map2d.
    destruct (at2 (background_mask bgr threshold dilate) i j) as [v|] eqn:Ev;
      [|reflexivity].
    cbn [option_map]. f_equal. eapply not8_binary_sub, Hb, Ev. }
  split; [now apply bitwise_not_binary|].
  unfold alpha_from_mask in Ha. split.
  - intros Hf. apply feather_on_spec in Hf. now rewrite Hf in Ha.
  - intros Hf. apply feather_off_spec in Hf. rewrite Hf in Ha. subst alpha.
    split; [reflexivity | now apply bitwise_not_binary].
Qed.

End PixelMaskerFacts.

(** ** The concrete library has the assumed properties *)

Lemma rows_shape {A B} (x : grid A) (y : grid B) :
  shape x = shape y -> rows x = rows y.
Proof.
  intros H. unfold rows. f_equal.
  apply (f_equal (@List.length nat)) in H. unfold shape in H.
  now rewrite !length_map in H.
Qed.

Lemma cols_shape {A B} (x : grid A) (y : grid B) :
  shape x = shape y -> cols x = cols y.
Proof. intros H. unfold cols. now rewrite H. Qed.

Lemma cell_or_0_le (x y : plane) i j :
  shape x = shape y -> plane_le x y -> cell_or_0 x i j <= cell_or_0 y i j.
Proof.
  intros Hs Hle. unfold cell_or_0.
  destruct (at2 x i j) as [v|] eqn:Ex.
  - destruct (at2_same_shape x y _ _ _ Hs Ex) as (w & Ey). rewrite Ey.
    eapply Hle; eauto.
  - destruct (at2 y i j) as [w|] eqn:Ey; [|lia].
    destruct (at2_same_shape y x _ _ _ (eq_sym Hs) Ey) as (v & Ev).
    congruence.
Qed.

Lemma cell_or_0_uint8 (m : plane) i j :
  uint8_plane m -> 0 <= cell_or_0 m i j <= 255.
Proof.
  intros H. unfold cell_or_0.
  destruct (at2 m i j) as [v|] eqn:E; [eapply H; eauto | lia].
Qed.

Lemma binomial_px_mono (x y : plane) i j :
  shape x = shape y -> plane_le x y -> binomial_px x i j <= binomial_px y i j.
Proof.
  intros Hs Hle. unfold binomial_px.
  rewrite (rows_shape x y Hs), (cols_shape x y Hs).
  apply Z.div_le_mono; [lia|].
  pose proof (fun a b => cell_or_0_le x y a b Hs Hle) as H.
  repeat match goal with
         | |- context [cell_or_0 x ?a ?b] =>
             pose proof (H a b); generalize dependent (cell_or_0 x a b); intros
         end.
  lia.
Qed.

Lemma binomial_px_uint8 (m : plane) i j :
  uint8_plane m -> 0 <= binomial_px m i j <= 255.
Proof.
  intros Hm. unfold binomial_px.
  pose proof (fun a b => cell_or_0_uint8 m a b Hm) as H.
  repeat match goal with
         | |- context [cell_or_0 m ?a ?b] =>
             pose proof (H a b); generalize dependent (cell_or_0 m a b); intros
         end.
  split; [apply Z.div_pos; lia|].
  apply Z.lt_succ_r, Z.div_lt_upper_bound; lia.
Qed.

Lemma at2_binomial_pass (m : plane) i j :
  at2 (binomial_pass m) i j = option_map (fun _ => binomial_px m i j) (at2 m i j).
Proof. apply at2_tabulate_like. Qed.

Lemma binomial_pass_facts (x y : plane) :
  shape x = shape y -> plane_le x y ->
  shape (binomial_pass x) = shape (binomial_pass y) /\
  plane_le (binomial_pass x) (binomial_pass y).
Proof.
  intros Hs Hle. split.
  - unfold binomial_pass. now rewrite !shape_tabulate_like.
  - intros i j v w Hv Hw. rewrite at2_binomial_pass in Hv, Hw.
    destruct (at2 x i j); simpl in Hv; [|discriminate].
    destruct (at2 y i j); simpl in Hw; [|discriminate].
    injection Hv as <-. injection Hw as <-. now apply binomial_px_mono.
Qed.

Lemma binomial_blur_shape (a : plane) k : shape (binomial_blur a k) = shape a.
Proof.
  unfold binomial_blur. induction (Z.to_nat ((k - 1) / 2)) as [|n IH]; simpl.
  - reflexivity.
  - unfold binomial_pass at 1. now rewrite shape_tabulate_like.
Qed.

Lemma binomial_blur_uint8 (a : plane) k :
  uint8_plane a -> uint8_plane (binomial_blur a k).
Proof.
  intros Ha. unfold binomial_blur.
  induction (Z.to_nat ((k - 1) / 2)) as [|n IH]; simpl; [exact Ha|].
  intros i j v Hv. rewrite at2_binomial_pass in Hv.
  destruct (at2 _ i j); simpl in Hv; [|discriminate].
  injection Hv as <-. now apply binomial_px_uint8.
Qed.

Lemma binomial_blur_mono (a b : plane) k :
  shape a = shape b -> plane_le a b ->
  plane_le (binomial_blur a k) (binomial_blur b k).
Proof.
  intros Hs Hle. unfold binomial_blur.
  enough (H : shape (Nat.iter (Z.to_nat ((k - 1) / 2)) binomial_pass a) =
              shape (Nat.iter (Z.to_nat ((k - 1) / 2)) binomial_pass b) /\
              plane_le (Nat.iter (Z.to_nat ((k - 1) / 2)) binomial_pass a)
                       (Nat.iter (Z.to_nat ((k - 1) / 2)) binomial_pass b))
    by apply H.
  induction (Z.to_nat ((k - 1) / 2)) as [|n [IHs IHle]]; simpl; [now split|].
  now apply binomial_pass_facts.
Qed.

(** The sample library has the assumed properties. *)
Lemma sample_cv_shape a k b :
  feather_on k = true -> GaussianBlur sample_cv a k = Returns b ->
  shape b = shape a.
Proof.
  intros _. cbn [GaussianBlur sample_cv].
  destruct (k <=? INT_MAX); [|discriminate].
  intros [= <-]. apply binomial_blur_shape.
Qed.

Lemma sample_cv_uint8 a k b :
  feather_on k = true -> uint8_plane a ->
  GaussianBlur sample_cv a k = Returns b -> uint8_plane b.
Proof.
  intros _ Ha. cbn [GaussianBlur sample_cv].
  destruct (k <=? INT_MAX); [|discriminate].
  intros [= <-]. now apply binomial_blur_uint8.
Qed.

Lemma sample_cv_mono a b k a' b' :
  feather_on k = true -> uint8_plane a -> uint8_plane b ->
  shape a = shape b -> plane_le a b ->
  GaussianBlur sample_cv a k = Returns a' ->
  GaussianBlur sample_cv b k = Returns b' ->
  plane_le a' b'.
Proof.
  intros _ _ _ Hs Hle. cbn [GaussianBlur sample_cv].
  destruct (k <=? INT_MAX); [|discriminate].
  intros [= <-] [= <-]. now apply binomial_blur_mono.
Qed.

(** ** The array properties at the sample images *)

Lemma threshold_decides_alpha_witness :
  exists out q,
    remove_black_background_array sample_cv (Some sample_bgr) 20 0 0
      = Returns out /\
    at2 out 1 1 = Some q /\
    (a4 q = 0 <-> 200 <= 20 /\ 10 <= 20 /\ 10 <= 20) /\
    (a4 q = 255 <-> 20 < 200 \/ 20 < 10 \/ 20 < 10).
Proof.
  apply (threshold_decides_alpha sample_cv sample_bgr 20 1 1 (BGR 200 10 10)).
  reflexivity.
Defined.

(** The sprite with the defaults of [parse_args]: the call returns, and the
    result has the shape and the colours of the sprite. *)
Lemma colours_and_shape_kept_witness :
  exists out,
    remove_black_background_array sample_cv (Some sample_sprite) 20 3 1
      = Returns out /\
    shape out = shape sample_sprite /\
    colour_of out = sample_sprite /\
    (forall i j p, at2 sample_sprite i j = Some p ->
       exists q, at2 out i j = Some q /\
                 b4 q = b3 p /\ g4 q = g3 p /\ r4 q = r3 p).
Proof.
  destruct (colours_and_shape_kept sample_cv sample_cv_shape sample_sprite
              default_args) as [Hret Hkept].
  - vm_compute. discriminate.
  - destruct (proj2 Hret) as (out & E).
    + split; [reflexivity | intros _; eexists; reflexivity].
    + exists out. split; [exact E | exact (Hkept out E)].
Defined.

(** The sprite with feather 3: without dilation the two left columns are
    transparent, with one pass the third column is so as well. *)
Lemma dilate_grows_transparency_witness :
  exists out1 out2,
    remove_black_background_array sample_cv (Some sample_sprite) 20 3 0
      = Returns out1 /\
    remove_black_background_array sample_cv (Some sample_sprite) 20 3 1
      = Returns out2 /\
    (forall i j q1, at2 out1 i j = Some q1 -> a4 q1 = 0 ->
       exists q2, at2 out2 i j = Some q2 /\ a4 q2 = 0) /\
    alpha_of out1 = [ [0; 0; 64; 191; 255; 255]; [0; 0; 64; 191; 255; 255];
                      [0; 0; 64; 191; 255; 255]; [0; 0; 64; 191; 255; 255] ] /\
    alpha_of out2 = [ [0; 0; 0; 64; 191; 255]; [0; 0; 0; 64; 191; 255];
                      [0; 0; 0; 64; 191; 255]; [0; 0; 0; 64; 191; 255] ].
Proof.
  eexists. eexists.
  split; [vm_compute; reflexivity|]. split; [vm_compute; reflexivity|].
  split; [|split; vm_compute; reflexivity].
  apply (proj2 (dilate_grows_transparency sample_cv sample_cv_shape
                  sample_cv_uint8 sample_cv_mono sample_sprite 20 3 0 1
                  ltac:(vm_compute; discriminate) ltac:(lia)));
    vm_compute; reflexivity.
Defined.

(** The sprite after one pass of dilation: with feather 3 the alpha is the
    blur of the inverted mask and differs from it, with feather 0 and with
    feather 4 it is the inverted mask. *)
Lemma feather_gates_blur_witness :
  let inverted := [ [0; 0; 0; 0; 255; 255]; [0; 0; 0; 0; 255; 255];
                    [0; 0; 0; 0; 255; 255]; [0; 0; 0; 0; 255; 255] ] in
  (exists out,
     remove_black_background_array sample_cv (Some sample_sprite) 20 3 1
       = Returns out /\
     GaussianBlur sample_cv inverted 3 = Returns (alpha_of out) /\
     alpha_of out = [ [0; 0; 0; 64; 191; 255]; [0; 0; 0; 64; 191; 255];
                      [0; 0; 0; 64; 191; 255]; [0; 0; 0; 64; 191; 255] ]) /\
  (exists out,
     remove_black_background_array sample_cv (Some sample_sprite) 20 0 1
       = Returns out /\
     alpha_of out = inverted /\ binary_plane (alpha_of out)) /\
  (exists out,
     remove_black_background_array sample_cv (Some sample_sprite) 20 4 1
       = Returns out /\
     alpha_of out = inverted /\ binary_plane (alpha_of out)).
Proof.
  assert (Inv : forall inverted' : plane,
            shape inverted' = shape sample_sprite ->
            (forall i j,
               at2 inverted' i j =
               option_map (fun v => 255 - v)
                 (at2 (background_mask sample_sprite 20 1) i j)) ->
            inverted' = [ [0; 0; 0; 0; 255; 255]; [0; 0; 0; 0; 255; 255];
                          [0; 0; 0; 0; 255; 255]; [0; 0; 0; 0; 255; 255] ]).
  { intros inv Hs Hc. apply grid_ext; [exact Hs|].
    intros i j. rewrite Hc.
    change (background_mask sample_sprite 20 1)
      with [ [255; 255; 255; 255; 0; 0]; [255; 255; 255; 255; 0; 0];
             [255; 255; 255; 255; 0; 0]; [255; 255; 255; 255; 0; 0] ].
    rewrite <- at2_map2d. reflexivity. }
  cbv zeta. split; [|split].
  - eexists. split; [vm_compute; reflexivity|].
    split; [|vm_compute; reflexivity].
    destruct (proj2 (feather_gates_blur sample_cv sample_cv_shape
                       sample_sprite 20 3 1 ltac:(vm_compute; discriminate))
                _ eq_refl) as (inv & Hs & Hc & _ & Hon & _).
    rewrite <- (Inv inv Hs Hc). apply Hon. split; [lia | reflexivity].
  - eexists. split; [vm_compute; reflexivity|].
    destruct (proj2 (feather_gates_blur sample_cv sample_cv_shape
                       sample_sprite 20 0 1 ltac:(vm_compute; discriminate))
                _ eq_refl) as (inv & Hs & Hc & _ & _ & Hoff).
    rewrite <- (Inv inv Hs Hc). apply Hoff. left. lia.
  - eexists. split; [vm_compute; reflexivity|].
    destruct (proj2 (feather_gates_blur sample_cv sample_cv_shape
                       sample_sprite 20 4 1 ltac:(vm_compute; discriminate))
                _ eq_refl) as (inv & Hs & Hc & _ & _ & Hoff).
    rewrite <- (Inv inv Hs Hc). apply Hoff. right. reflexivity.
Defined.

(** ** Strings *)

#[local] Open Scope string_scope.
#[local] Open Scope Z_scope.

Lemma append_nil_r (s : string) : s ++ EmptyString = s.
Proof. induction s as [|a s IH]; simpl; [reflexivity | now rewrite IH]. Qed.

Lemma append_assoc (a b c : string) : (a ++ b) ++ c = a ++ (b ++ c).
Proof. induction a as [|x a IH]; simpl; [reflexivity | now rewrite IH]. Qed.

Lemma length_append (a b : string) :
  String.length (a ++ b) = (String.length a + String.length b)%nat.
Proof. induction a as [|x a IH]; simpl; [reflexivity | now rewrite IH]. Qed.

Lemma append_cancel_l (a x y : string) : a ++ x = a ++ y -> x = y.
Proof.
  induction a as [|c a IH]; simpl; [trivial|].
  intros [= H]. auto.
Qed.

Lemma append_cancel_r (a x y : string) : x ++ a = y ++ a -> x = y.
Proof.
  revert y; induction x as [|c x IH]; intros [|d y] H; simpl in *.
  - reflexivity.
  - apply (f_equal String.length) in H. simpl in H.
    rewrite length_append in H. lia.
  - apply (f_equal String.length) in H. simpl in H.
    rewrite length_append in H. lia.
  - injection H as -> H. f_equal. auto.
Qed.

Lemma contains_append c (a b : string) :
  contains c (a ++ b) = contains c a || contains c b.
Proof.
  induction a as [|x a IH]; simpl; [reflexivity|].
  now rewrite IH, orb_assoc.
Qed.

Lemma contains_take c n (s : string) :
  contains c s = false -> contains c (str.take n s) = false.
Proof.
  revert s; induction n as [|n IH]; intros [|a s]; simpl; trivial.
  intros H. apply orb_false_iff in H as [-> H]. simpl. auto.
Qed.

Lemma drop_append (a b : string) : str.drop (String.length a) (a ++ b) = b.
Proof. induction a as [|x a IH]; simpl; [now destruct b | exact IH]. Qed.

Lemma take_append (a b : string) : str.take (String.length a) (a ++ b) = a.
Proof.
  induction a as [|x a IH]; simpl; [now destruct b | now rewrite IH].
Qed.

Lemma startswith_append (a b : string) c :
  a <> EmptyString -> str.startswith (a ++ b) (String c EmptyString) = str.startswith a (String c EmptyString).
Proof.
  destruct a as [|x a]; [congruence|]. intros _. unfold str.startswith. simpl.
  destruct (ascii_dec c x); [|reflexivity].
  now destruct (a ++ b), a.
Qed.

Lemma startswith_char (s : string) c :
  str.startswith s (String c EmptyString) =
  match s with String a _ => Ascii.eqb a c | EmptyString => false end.
Proof.
  unfold str.startswith. destruct s as [|a s]; simpl; [reflexivity|].
  destruct (ascii_dec c a) as [->|n].
  - rewrite Ascii.eqb_refl. now destruct s.
  - symmetry. apply Ascii.eqb_neq. congruence.
Qed.

Lemma endswith_append (a b : string) c :
  b <> EmptyString -> str.endswith (a ++ b) c = str.endswith b c.
Proof.
  intros Hb. induction a as [|x a IH]; simpl; [reflexivity|].
  rewrite IH. destruct (a ++ b) eqn:E; [|reflexivity].
  destruct a, b; simpl in E; congruence.
Qed.

Lemma endswith_snoc (a : string) c d :
  str.endswith (a ++ String d EmptyString) c = Ascii.eqb d c.
Proof. rewrite endswith_append; [reflexivity | discriminate]. Qed.

Lemma endswith_decomp (s : string) c :
  str.endswith s c = true -> exists s', s = s' ++ String c EmptyString.
Proof.
  induction s as [|a s IH]; simpl; [discriminate|].
  destruct s as [|b s].
  - intros H. apply Ascii.eqb_eq in H as ->. now exists EmptyString.
  - intros H. destruct (IH H) as (s' & E). exists (String a s').
    simpl. now rewrite <- E.
Qed.

(** A name without separator does not end with one. *)
Lemma nosep_endswith (s : string) :
  contains posixpath.sep s = false -> str.endswith s posixpath.sep = false.
Proof.
  intros H. destruct (str.endswith s posixpath.sep) eqn:E; [|reflexivity].
  apply endswith_decomp in E as (s' & ->).
  rewrite contains_append in H. simpl in H.
  now rewrite orb_true_r in H.
Qed.

Lemma nosep_startswith (s : string) :
  contains posixpath.sep s = false -> str.startswith s "/" = false.
Proof.
  rewrite startswith_char. destruct s as [|a s]; [reflexivity|].
  cbn [contains]. intros H. now apply orb_false_iff in H as [H _].
Qed.

(** *** rfind, basename, dirname *)

Lemma rfind_nosep c (s : string) : contains c s = false -> str.rfind c s = -1.
Proof.
  induction s as [|a s IH]; simpl; [reflexivity|].
  intros H. apply orb_false_iff in H as [-> H]. now rewrite (IH H).
Qed.

Lemma rfind_bounds c (s : string) : -1 <= str.rfind c s.
Proof.
  induction s as [|a s IH]; simpl; [lia|].
  destruct (0 <=? str.rfind c s) eqn:E; [apply Z.leb_le in E; lia|].
  destruct (Ascii.eqb a c); lia.
Qed.

Lemma rfind_append_sep c (s t : string) :
  contains c t = false ->
  str.rfind c (s ++ String c t) = Z.of_nat (String.length s).
Proof.
  intros Ht. induction s as [|a s IH].
  - simpl. rewrite (rfind_nosep c t Ht). simpl. now rewrite Ascii.eqb_refl.
  - cbn [append str.rfind String.length]. rewrite IH.
    destruct (0 <=? Z.of_nat (String.length s)) eqn:E; [lia|].
    apply Z.leb_gt in E. lia.
Qed.

(** A path is a name, or a head, a separator and a name. *)
Lemma last_sep_decomp (p : string) :
  contains posixpath.sep p = false \/
  exists h f, p = h ++ String posixpath.sep f /\ contains posixpath.sep f = false.
Proof.
  induction p as [|a p IH]; [now left|].
  destruct IH as [Hn | (h & f & -> & Hf)].
  - destruct (Ascii.eqb a posixpath.sep) eqn:E.
    + right. apply Ascii.eqb_eq in E as ->. exists EmptyString, p. auto.
    + left. cbn [contains]. now rewrite E, Hn.
  - right. exists (String a h), f. auto.
Qed.

Lemma basename_append (h f : string) :
  contains posixpath.sep f = false ->
  posixpath.basename (h ++ String posixpath.sep f) = f.
Proof.
  intros Hf. unfold posixpath.basename, str.slice_from.
  rewrite (rfind_append_sep _ h f Hf).
  replace (Z.to_nat (Z.of_nat (String.length h) + 1))
    with (String.length (h ++ "/")) by (rewrite length_append; simpl; lia).
  change (String posixpath.sep f) with ("/" ++ f).
  now rewrite <- append_assoc, drop_append.
Qed.

Lemma basename_nosep_id (f : string) :
  contains posixpath.sep f = false -> posixpath.basename f = f.
Proof.
  intros Hf. unfold posixpath.basename, str.slice_from.
  rewrite (rfind_nosep _ f Hf). simpl. now destruct f.
Qed.

Lemma basename_nosep (p : string) :
  contains posixpath.sep (posixpath.basename p) = false.
Proof.
  destruct (last_sep_decomp p) as [Hn | (h & f & -> & Hf)].
  - now rewrite basename_nosep_id.
  - now rewrite basename_append.
Qed.

Lemma all_char_append c (a b : string) :
  str.all_char c (a ++ b) = str.all_char c a && str.all_char c b.
Proof.
  induction a as [|x a IH]; simpl; [reflexivity|].
  now rewrite IH, andb_assoc.
Qed.

Lemma all_char_endswith c (s : string) :
  s <> EmptyString -> str.all_char c s = true -> str.endswith s c = true.
Proof.
  induction s as [|a s IH]; [congruence|]. intros _. simpl.
  intros H. apply andb_true_iff in H as [Ha Hs].
  destruct s as [|b s]; [exact Ha|]. apply IH; [discriminate | exact Hs].
Qed.

Lemma rstrip_snoc c (s : string) :
  str.rstrip c (s ++ String c EmptyString) = str.rstrip c s.
Proof.
  induction s as [|a s IH]; simpl.
  - now rewrite Ascii.eqb_refl.
  - now rewrite IH.
Qed.

Lemma rstrip_id c (s : string) :
  str.endswith s c = false -> str.rstrip c s = s.
Proof.
  induction s as [|a s IH]; [reflexivity|]. simpl.
  destruct s as [|b s].
  - simpl. now intros ->.
  - intros H. rewrite (IH H). reflexivity.
Qed.

(** The directory of a file in a folder whose name does not end with a
    separator is that folder. *)
Lemma dirname_append (d f : string) :
  d <> EmptyString -> str.endswith d posixpath.sep = false ->
  contains posixpath.sep f = false ->
  posixpath.dirname (d ++ String posixpath.sep f) = d.
Proof.
  intros Hd He Hf. unfold posixpath.dirname, str.slice_to.
  rewrite (rfind_append_sep _ d f Hf).
  replace (Z.to_nat (Z.of_nat (String.length d) + 1))
    with (String.length (d ++ "/")) by (rewrite length_append; simpl; lia).
  change (String posixpath.sep f) with ("/" ++ f).
  rewrite <- append_assoc, take_append.
  assert (Hall : str.all_char posixpath.sep (d ++ "/") = false).
  { rewrite all_char_append.
    destruct (str.all_char posixpath.sep d) eqn:E; [|reflexivity].
    apply all_char_endswith in E; congruence. }
  rewrite Hall.
  assert (Hne : (d ++ "/" =? EmptyString)%string = false)
    by (apply String.eqb_neq; destruct d; discriminate).
  rewrite Hne. simpl.
  change "/" with (String posixpath.sep EmptyString).
  now rewrite rstrip_snoc, rstrip_id.
Qed.

(** *** join *)

Lemma join2_relative (path b : string) :
  str.startswith b "/" = false ->
  posixpath.join2 path b =
  if (path =? EmptyString)%string || str.endswith path posixpath.sep
  then path ++ b else path ++ "/" ++ b.
Proof. intros H. unfold posixpath.join2. now rewrite H. Qed.

Lemma join2_plain (path b : string) :
  path <> EmptyString -> str.endswith path posixpath.sep = false ->
  str.startswith b "/" = false ->
  posixpath.join2 path b = path ++ "/" ++ b.
Proof.
  intros Hp He Hb. rewrite (join2_relative _ _ Hb), He.
  apply String.eqb_neq in Hp. now rewrite Hp.
Qed.

(** *** split and normpath *)




Lemma split_parts_nosep c (s : string) :
  Forall (fun x => contains c x = false) (str.split c s).
Proof.
  induction s as [|a s IH]; simpl; [repeat constructor|].
  destruct (Ascii.eqb a c) eqn:E; [now constructor|].
  destruct (str.split c s) as [|h r]; [repeat constructor; simpl; now rewrite E|].
  inversion IH as [|? ? Hh Hr]; subst. constructor; [|exact Hr].
  simpl. now rewrite E, Hh.
Qed.

















(** *** relpath *)






Lemma good_comp_tidy (s : string) : good_comp s -> tidy s.
Proof.
  intros [H1 H2]. repeat split; trivial.
  - now apply nosep_startswith.
  - now apply nosep_endswith.
Qed.

Lemma join_tidy (a : string) (l : list string) :
  tidy a -> Forall good_comp l -> tidy (posixpath.join a l).
Proof.
  intros Ha Hl. revert a Ha. unfold posixpath.join.
  induction Hl as [|b l Hb _ IH]; intros a Ha; simpl; [exact Ha|].
  apply IH. destruct Ha as (A1 & A2 & A3).
  destruct (good_comp_tidy b Hb) as (B1 & B2 & B3).
  rewrite (join2_plain a b A1 A3 B2). repeat split.
  - destruct a; [congruence | discriminate].
  - now rewrite (startswith_append a _ "/"%char A1).
  - rewrite endswith_append by discriminate.
    change ("/" ++ b) with (String posixpath.sep EmptyString ++ b).
    now rewrite endswith_append.
Qed.

Lemma nonempty_comps_good (s : string) :
  Forall good_comp (posixpath.nonempty_comps s).
Proof.
  unfold posixpath.nonempty_comps.
  pose proof (split_parts_nosep posixpath.sep s) as H.
  induction H as [|x l Hx _ IH]; simpl; [constructor|].
  destruct (x =? EmptyString)%string eqn:E; simpl; [exact IH|].
  constructor; [|exact IH]. split; [now apply String.eqb_neq | exact Hx].
Qed.

Lemma relpath_tidy cwd path start rel :
  posixpath.relpath cwd path start = Returns rel -> tidy rel.
Proof.
  unfold posixpath.relpath. destruct (path =? EmptyString)%string; [discriminate|].
  cbv zeta.
  set (sl := posixpath.nonempty_comps (posixpath.abspath cwd start)).
  set (pl := posixpath.nonempty_comps (posixpath.abspath cwd path)).
  set (i := posixpath.commonprefix_len sl pl).
  assert (H : Forall good_comp
                (List.repeat ".." (List.length sl - i) ++ skipn i pl)%list).
  { apply Forall_app. split.
    - apply Forall_forall. intros x Hx. apply repeat_spec in Hx as ->.
      split; [discriminate | reflexivity].
    - apply Forall_forall. intros x Hx.
      pose proof (nonempty_comps_good (posixpath.abspath cwd path)) as Hg.
      rewrite Forall_forall in Hg. apply Hg.
      fold pl. rewrite <- (firstn_skipn i pl). apply in_or_app. now right. }
  destruct (List.repeat ".." (List.length sl - i) ++ skipn i pl)%list
    as [|a l]; intros [= <-].
  - split; [discriminate | split; reflexivity].
  - inversion H; subst. apply join_tidy; [now apply good_comp_tidy | trivial].
Qed.





(** *** The output path *)

Lemma join_tidy_file (out_dir rel f : string) :
  tidy rel -> str.startswith f "/" = false ->
  posixpath.join (posixpath.join out_dir [rel]) [f]
  = dir_prefix out_dir ++ rel ++ String posixpath.sep f.
Proof.
  intros (R1 & R2 & R3) Hf. cbn [posixpath.join fold_left].
  rewrite (join2_relative out_dir rel R2).
  assert (E : (if (out_dir =? EmptyString)%string || str.endswith out_dir posixpath.sep
               then out_dir ++ rel else out_dir ++ "/" ++ rel)
              = dir_prefix out_dir ++ rel).
  { unfold dir_prefix. destruct (_ || _); [reflexivity|].
    now rewrite append_assoc. }
  rewrite E. rewrite join2_plain; trivial.
  - now rewrite append_assoc.
  - destruct (dir_prefix out_dir), rel; simpl; congruence.
  - now rewrite endswith_append.
Qed.

Lemma join_flat_file (out_dir f : string) :
  str.startswith f "/" = false ->
  posixpath.join (posixpath.join out_dir [EmptyString]) [f] = dir_prefix out_dir ++ f.
Proof.
  intros Hf. cbn [posixpath.join fold_left].
  rewrite (join2_relative out_dir EmptyString eq_refl).
  assert (E : (if (out_dir =? EmptyString)%string || str.endswith out_dir posixpath.sep
               then out_dir ++ EmptyString else out_dir ++ "/" ++ EmptyString)
              = dir_prefix out_dir).
  { unfold dir_prefix. destruct (_ || _); [apply append_nil_r | reflexivity]. }
  rewrite E, (join2_relative _ f Hf). unfold dir_prefix.
  destruct ((out_dir =? EmptyString)%string || str.endswith out_dir posixpath.sep) eqn:C.
  - now rewrite C.
  - change "/" with (String posixpath.sep EmptyString).
    now rewrite endswith_snoc, Ascii.eqb_refl, orb_true_r.
Qed.

Lemma append_sep_inj (a1 a2 f1 f2 : string) :
  contains posixpath.sep f1 = false -> contains posixpath.sep f2 = false ->
  a1 ++ String posixpath.sep f1 = a2 ++ String posixpath.sep f2 ->
  a1 = a2 /\ f1 = f2.
Proof.
  intros H1 H2 E. assert (Ef : f1 = f2).
  { apply (f_equal posixpath.basename) in E.
    now rewrite !basename_append in E. }
  subst f2. split; [|reflexivity]. eapply append_cancel_r, E.
Qed.

Lemma stem_nosep (p : string) : contains posixpath.sep (stem_of p) = false.
Proof.
  unfold stem_of, posixpath.splitext. cbv zeta.
  pose proof (basename_nosep p) as H.
  destruct (_ && _); cbn [fst]; [|exact H].
  now apply contains_take.
Qed.

Lemma png_name_nosep (p : string) :
  contains posixpath.sep (stem_of p ++ ".png") = false.
Proof. now rewrite contains_append, stem_nosep. Qed.

Lemma out_path_of_keep W args in_path out_dir rel :
  rel_dir_of W args in_path true = Returns rel ->
  out_path_of W args in_path out_dir true
  = Returns (dir_prefix out_dir ++ rel
             ++ String posixpath.sep (stem_of in_path ++ ".png")).
Proof.
  intros Hr. unfold out_path_of, target_dir_of. rewrite Hr.
  rewrite join_tidy_file; [reflexivity | |].
  - eapply relpath_tidy, Hr.
  - apply nosep_startswith, png_name_nosep.
Qed.

Lemma out_path_of_flat W args in_path out_dir :
  out_path_of W args in_path out_dir false
  = Returns (dir_prefix out_dir ++ stem_of in_path ++ ".png").
Proof.
  unfold out_path_of, target_dir_of, rel_dir_of.
  rewrite join_flat_file; [reflexivity|].
  apply nosep_startswith, png_name_nosep.
Qed.

Lemma out_path_of_rel_dir W args in_path out_dir keep out :
  out_path_of W args in_path out_dir keep = Returns out ->
  exists rel, rel_dir_of W args in_path keep = Returns rel.
Proof.
  unfold out_path_of, target_dir_of.
  destruct (rel_dir_of W args in_path keep); [eauto | discriminate].
Qed.

(** The file [process_one] writes is the one [out_path_of] names. *)
Lemma process_one_writes_out_path cv W args in_path out_dir threshold feather
  dilate_iters keep p img :
  In (Imwrite p img)
     (fst (process_one cv W args in_path out_dir threshold feather
             dilate_iters keep)) ->
  out_path_of W args in_path out_dir keep = Returns p.
Proof.
  unfold process_one, out_path_of, target_dir_of, rel_dir_of, stem_of.
  destruct keep.
  - destruct (posixpath.relpath _ _ _) as [rel|e]; [|intros []].
    unfold call, lift, bind, try_except, ret.
    destruct (os_makedirs W _) as [u|e1];
      [|simpl; intros [H | []]; discriminate].
    destruct (posixpath.splitext (posixpath.basename in_path)) as [stem ext].
    destruct (cv2_imread W in_path) as [[bgr|]|e2];
      try (simpl; intros [H | [H | []]]; discriminate).
    destruct (remove_black_background_array cv (Some bgr) threshold
                feather dilate_iters) as [bgra|e3];
      try (simpl; intros [H | [H | []]]; discriminate).
    destruct (cv2_imwrite W _ bgra) as [[|]|e4]; simpl;
      intros [H | [H | [H | []]]]; try discriminate;
      now injection H as <- _.
  - unfold call, lift, bind, try_except, ret.
    destruct (os_makedirs W _) as [u|e1];
      [|simpl; intros [H | []]; discriminate].
    destruct (posixpath.splitext (posixpath.basename in_path)) as [stem ext].
    destruct (cv2_imread W in_path) as [[bgr|]|e2];
      try (simpl; intros [H | [H | []]]; discriminate).
    destruct (remove_black_background_array cv (Some bgr) threshold
                feather dilate_iters) as [bgra|e3];
      try (simpl; intros [H | [H | []]]; discriminate).
    destruct (cv2_imwrite W _ bgra) as [[|]|e4]; simpl;
      intros [H | [H | [H | []]]]; try discriminate;
      now injection H as <- _.
Qed.



(** [process_one] is its decision tree. *)
Lemma process_one_is_tree cv W args in_path out_dir threshold feather
  dilate_iters keep :
  process_one cv W args in_path out_dir threshold feather dilate_iters keep
  = process_one_tree cv W args in_path out_dir threshold feather
      dilate_iters keep.
Proof.
  unfold process_one, process_one_tree, rel_dir_of, stem_of.
  destruct keep.
  - destruct (posixpath.relpath _ _ _) as [rel|e0]; [|reflexivity].
    unfold call, lift, bind, try_except, ret.
    destruct (os_makedirs W _) as [u|e1]; [|reflexivity].
    destruct (posixpath.splitext (posixpath.basename in_path)) as [stem ext].
    destruct (cv2_imread W in_path) as [[bgr|]|e2]; try reflexivity.
    destruct (remove_black_background_array cv (Some bgr) threshold
                feather dilate_iters) as [bgra|e3]; try reflexivity.
    destruct (cv2_imwrite W _ bgra) as [[|]|e4]; reflexivity.
  - unfold call, lift, bind, try_except, ret.
    destruct (os_makedirs W _) as [u|e1]; [|reflexivity].
    destruct (posixpath.splitext (posixpath.basename in_path)) as [stem ext].
    destruct (cv2_imread W in_path) as [[bgr|]|e2]; try reflexivity.
    destruct (remove_black_background_array cv (Some bgr) threshold
                feather dilate_iters) as [bgra|e3]; try reflexivity.
    destruct (cv2_imwrite W _ bgra) as [[|]|e4]; reflexivity.
Qed.

Lemma target_dir_of_join W args in_path out_dir keep rel :
  rel_dir_of W args in_path keep = Returns rel ->
  target_dir_of W args in_path out_dir keep
  = Returns (posixpath.join out_dir [rel]) /\
  out_path_of W args in_path out_dir keep
  = Returns (posixpath.join (posixpath.join out_dir [rel])
               [stem_of in_path ++ ".png"]).
Proof. intros H. unfold out_path_of, target_dir_of. now rewrite H. Qed.


(** C5, as amended. [process_one] gives two input paths the same output
    path exactly when they have the same stem and, with structure
    preservation, the same directory relative to the input root; two
    inputs that differ in one of these are written to different files. *)
Theorem same_output_iff_same_stem_and_dir (W : World) (args : Args)
  (out_dir : string) (keep : bool) (p1 p2 : string) :
  (forall o1 o2,
     out_path_of W args p1 out_dir keep = Returns o1 ->
     out_path_of W args p2 out_dir keep = Returns o2 ->
     (o1 = o2 <->
      stem_of p1 = stem_of p2 /\
      rel_dir_of W args p1 keep = rel_dir_of W args p2 keep)) /\
  (forall cv threshold feather dilate_iters o1 o2 img1 img2,
     In (Imwrite o1 img1)
        (fst (process_one cv W args p1 out_dir threshold feather
                dilate_iters keep)) ->
     In (Imwrite o2 img2)
        (fst (process_one cv W args p2 out_dir threshold feather
                dilate_iters keep)) ->
     (o1 = o2 <->
      stem_of p1 = stem_of p2 /\
      rel_dir_of W args p1 keep = rel_dir_of W args p2 keep)).
Proof.
  assert (Paths : forall o1 o2,
     out_path_of W args p1 out_dir keep = Returns o1 ->
     out_path_of W args p2 out_dir keep = Returns o2 ->
     (o1 = o2 <->
      stem_of p1 = stem_of p2 /\
      rel_dir_of W args p1 keep = rel_dir_of W args p2 keep));
    [| split; [exact Paths|];
       intros cv threshold feather dilate_iters o1 o2 img1 img2 H1 H2;
       apply process_one_writes_out_path in H1, H2; now apply Paths].
  intros o1 o2 H1 H2. destruct keep.
  - destruct (out_path_of_rel_dir _ _ _ _ _ _ H1) as (r1 & Hr1).
    destruct (out_path_of_rel_dir _ _ _ _ _ _ H2) as (r2 & Hr2).
    rewrite (out_path_of_keep _ _ _ _ _ Hr1) in H1.
    rewrite (out_path_of_keep _ _ _ _ _ Hr2) in H2.
    injection H1 as <-. injection H2 as <-. rewrite Hr1, Hr2. split.
    + intros E. apply append_cancel_l, append_sep_inj in E as [-> E];
        try apply png_name_nosep.
      split; [eapply append_cancel_r, E | reflexivity].
    + intros [Es [= ->]]. now rewrite Es.
  - rewrite out_path_of_flat in H1, H2.
    injection H1 as <-. injection H2 as <-. split.
    + intros E. apply append_cancel_l, append_cancel_r in E. now split.
    + intros [Es _]. now rewrite Es.
Qed.

(** *** The path properties at the sample folders *)


Lemma same_output_iff_same_stem_and_dir_witness :
  "./out/a/pic.png" = "./out/b/pic.png" <->
  stem_of "./in/a/pic.jpg" = stem_of "./in/b/pic.jpg" /\
  rel_dir_of crowded_world (sample_args true) "./in/a/pic.jpg" true
  = rel_dir_of crowded_world (sample_args true) "./in/b/pic.jpg" true.
Proof.
  apply (proj1 (same_output_iff_same_stem_and_dir crowded_world
                  (sample_args true) "./out" true
                  "./in/a/pic.jpg" "./in/b/pic.jpg"));
    reflexivity.
Defined.

(** C5 as it is stated does not hold in the crowded folder.  With
    structure preservation [img.jpg] and [img.png] of one folder are two
    eligible inputs with one output path; without it the two [pic.jpg] of
    the sub-folders [a] and [b] are.  In both cases [process_one] reports
    success for either input, on the same file. *)
Lemma distinct_inputs_share_output :
  (In "./in/img.jpg" (list_images crowded_world "./in") /\
   In "./in/img.png" (list_images crowded_world "./in") /\
   "./in/img.jpg" <> "./in/img.png" /\
   out_path_of crowded_world (sample_args true) "./in/img.jpg" "./out" true
     = Returns "./out/./img.png" /\
   out_path_of crowded_world (sample_args true) "./in/img.png" "./out" true
     = Returns "./out/./img.png" /\
   snd (process_one sample_cv crowded_world (sample_args true)
          "./in/img.jpg" "./out" 20 3 1 true) = Returns "OK: ./out/./img.png" /\
   snd (process_one sample_cv crowded_world (sample_args true)
          "./in/img.png" "./out" 20 3 1 true) = Returns "OK: ./out/./img.png")
  /\
  (In "./in/a/pic.jpg" (list_images crowded_world "./in") /\
   In "./in/b/pic.jpg" (list_images crowded_world "./in") /\
   "./in/a/pic.jpg" <> "./in/b/pic.jpg" /\
   out_path_of crowded_world (sample_args false) "./in/a/pic.jpg" "./out" false
     = Returns "./out/pic.png" /\
   out_path_of crowded_world (sample_args false) "./in/b/pic.jpg" "./out" false
     = Returns "./out/pic.png" /\
   snd (process_one sample_cv crowded_world (sample_args false)
          "./in/a/pic.jpg" "./out" 20 3 1 false) = Returns "OK: ./out/pic.png" /\
   snd (process_one sample_cv crowded_world (sample_args false)
          "./in/b/pic.jpg" "./out" 20 3 1 false) = Returns "OK: ./out/pic.png").
Proof.
  split; (split; [vm_compute; tauto|]); (split; [vm_compute; tauto|]);
    (split; [discriminate|]); repeat split; vm_compute; reflexivity.
Qed.

(** ** process_one: outcomes *)

Section ProcessOneFacts.

Variable cv : OpenCV.
Variable W : World.

#[local] Abbreviation process_one' := (process_one cv W).

(** Once the target directory exists, [process_one] computes up to the
    call of [cv2.imread]. *)
Lemma process_one_upto_imread args in_path out_dir threshold feather dilate_iters
  keep_structure target_dir :
  target_dir_of W args in_path out_dir keep_structure = Returns target_dir ->
  os_makedirs W target_dir = Returns tt ->
  process_one' args in_path out_dir threshold feather dilate_iters keep_structure
  = bind (call (Makedirs target_dir) (Returns tt))
      (fun _ =>
         bind (call (Imread in_path) (cv2_imread W in_path))
           (fun bgr =>
              match bgr with
              | None => ret ("SKIP (unreadable): " ++ in_path)%string
              | Some _ =>
                  try_except
                    (bind (lift (remove_black_background_array cv bgr
                                   threshold feather dilate_iters))
                       (fun bgra =>
                          let out_path :=
                            posixpath.join target_dir
                              [(stem_of in_path ++ ".png")%string] in
                          bind (call (Imwrite out_path bgra)
                                  (cv2_imwrite W out_path bgra))
                            (fun ok =>
                               if negb ok
                               then ret ("ERROR (write failed): " ++ out_path)%string
                               else ret ("OK: " ++ out_path)%string)))
                    (fun e =>
                       ret ("ERROR (" ++ in_path ++ "): " ++ exn_msg e)%string)
              end)).
Proof.
  intros Ht Hm. unfold process_one, target_dir_of, rel_dir_of, stem_of in *.
  assert (E : (if keep_structure
               then lift (posixpath.relpath (getcwd W)
                            (posixpath.dirname in_path) (args_input args))
               else ret EmptyString)
              = ([], Returns (match rel_dir_of W args in_path keep_structure with
                              | Returns r => r
                              | Raises _ => EmptyString
                              end))).
  { unfold rel_dir_of. destruct keep_structure; [|reflexivity].
    now destruct (posixpath.relpath _ _ _). }
  rewrite E. clear E. unfold rel_dir_of.
  assert (Et : posixpath.join out_dir
                 [match (if keep_structure
                         then posixpath.relpath (getcwd W)
                                (posixpath.dirname in_path) (args_input args)
                         else Returns EmptyString) with
                  | Returns r => r
                  | Raises _ => EmptyString
                  end] = target_dir).
  { destruct keep_structure.
    - destruct (posixpath.relpath _ _ _); [now injection Ht | discriminate].
    - now injection Ht. }
  cbn [bind]. rewrite Et, Hm.
  destruct (posixpath.splitext (posixpath.basename in_path)) as [stem ext].
  cbn [fst].
  destruct (cv2_imread W in_path) as [[bgr|]|e2]; try reflexivity.
  unfold call, lift, bind, try_except, ret.
  destruct (remove_black_background_array cv (Some bgr) threshold
              feather dilate_iters) as [bgra|e3]; try reflexivity.
  destruct (cv2_imwrite W _ bgra) as [[|]|e4]; reflexivity.
Qed.

(** The strings [process_one] can return. *)
Lemma process_one_outcome_shape args in_path out_dir threshold feather
  dilate_iters keep_structure s :
  snd (process_one' args in_path out_dir threshold feather dilate_iters
         keep_structure) = Returns s ->
  (exists x, s = ("SKIP (unreadable): " ++ x)%string) \/
  (exists x, s = ("ERROR (write failed): " ++ x)%string) \/
  (exists x, s = ("OK: " ++ x)%string) \/
  (exists x, s = ("ERROR (" ++ x)%string).
Proof.
  unfold process_one.
  destruct (if keep_structure then _ else _) as [t0 [rel|e0]];
    [|simpl; discriminate].
  unfold call, lift, bind, try_except, ret.
  destruct (os_makedirs W _) as [u|e1]; [|simpl; discriminate].
  destruct (posixpath.splitext (posixpath.basename in_path)) as [stem ext].
  destruct (cv2_imread W in_path) as [[bgr|]|e2].
  3:{ simpl. discriminate. }
  2:{ simpl. intros [= <-]. left. eauto. }
  destruct (remove_black_background_array cv (Some bgr) threshold
              feather dilate_iters) as [bgra|e3].
  2:{ simpl. intros [= <-]. right. right. right. eauto. }
  destruct (cv2_imwrite W _ bgra) as [[|]|e4];
    simpl; intros [= <-]; eauto 6.
Qed.

Lemma process_one_one_prefix args in_path out_dir threshold feather
  dilate_iters keep_structure s :
  snd (process_one' args in_path out_dir threshold feather dilate_iters
         keep_structure) = Returns s ->
  one_prefix s.
Proof.
  intros H. apply process_one_outcome_shape in H.
  destruct H as [(x & ->) | [(x & ->) | [(x & ->) | (x & ->)]]];
    unfold one_prefix, str.startswith; simpl; intuition.
Qed.

(** Past [os.makedirs] no exception leaves [process_one]: the sibling path
    of the one that C6 is about. *)
Lemma process_one_returns_after_makedirs args in_path out_dir threshold feather
  dilate_iters keep_structure target_dir bgr :
  target_dir_of W args in_path out_dir keep_structure = Returns target_dir ->
  os_makedirs W target_dir = Returns tt ->
  cv2_imread W in_path = Returns bgr ->
  exists s,
    snd (process_one' args in_path out_dir threshold feather dilate_iters
           keep_structure) = Returns s.
Proof.
  intros Ht Hm Hr.
  rewrite (process_one_upto_imread _ _ _ _ _ _ _ _ Ht Hm), Hr.
  unfold call, lift, bind, try_except, ret.
  destruct bgr as [bgr|]; [|simpl; eauto].
  destruct (remove_black_background_array cv (Some bgr) threshold
              feather dilate_iters) as [bgra|e3]; [|simpl; eauto].
  destruct (cv2_imwrite W _ bgra) as [[|]|e4]; simpl; eauto.
Qed.

(** The exceptions that leave [process_one] are those of the three calls
    made before its [try]: [os.path.relpath], [os.makedirs], [cv2.imread]. *)
Lemma process_one_raises_iff args in_path out_dir threshold feather
  dilate_iters keep_structure e :
  snd (process_one' args in_path out_dir threshold feather dilate_iters
         keep_structure) = Raises e <->
  rel_dir_of W args in_path keep_structure = Raises e \/
  exists target_dir,
    target_dir_of W args in_path out_dir keep_structure = Returns target_dir /\
    (os_makedirs W target_dir = Raises e \/
     (os_makedirs W target_dir = Returns tt /\
      cv2_imread W in_path = Raises e)).
Proof.
  unfold target_dir_of.
  destruct (rel_dir_of W args in_path keep_structure) as [rel|e0] eqn:Er.
  - assert (Ht : target_dir_of W args in_path out_dir keep_structure
                 = Returns (posixpath.join out_dir [rel]))
      by (unfold target_dir_of; now rewrite Er).
    destruct (os_makedirs W (posixpath.join out_dir [rel])) as [[]|e1] eqn:Em.
    + rewrite (process_one_upto_imread _ _ _ _ _ _ _ _ Ht Em).
      unfold call, lift, bind, try_except, ret.
      destruct (cv2_imread W in_path) as [[bgr|]|e2] eqn:Ei.
      * destruct (remove_black_background_array cv (Some bgr)
                    threshold feather dilate_iters) as [bgra|e3].
        -- destruct (cv2_imwrite W _ bgra) as [[|]|e4]; cbn [snd negb]; split;
             try discriminate;
             intros [H | (d & [= <-] & [H | [_ H]])]; cbn [posixpath.join fold_left] in *; congruence.
        -- cbn [snd]. split; try discriminate.
           intros [H | (d & [= <-] & [H | [_ H]])]; cbn [posixpath.join fold_left] in *; congruence.
      * cbn [snd]. split; try discriminate.
        intros [H | (d & [= <-] & [H | [_ H]])]; cbn [posixpath.join fold_left] in *; congruence.
      * cbn [snd]. split.
        -- intros [= <-]. right. eauto.
        -- intros [H | (d & [= <-] & [H | [_ H]])]; cbn [posixpath.join fold_left] in *; congruence.
    + assert (E : snd (process_one' args in_path out_dir threshold feather
                         dilate_iters keep_structure) = Raises e1).
      { unfold process_one, rel_dir_of in *.
        destruct keep_structure.
        - rewrite Er. unfold call, lift, bind. rewrite Em.
          reflexivity.
        - injection Er as <-. unfold call, ret, bind. rewrite Em.
          reflexivity. }
      rewrite E. split.
      * intros [= <-]. right. eauto.
      * intros [H | (d & [= <-] & [H | [H _]])]; cbn [posixpath.join fold_left] in *; congruence.
  - assert (E : snd (process_one' args in_path out_dir threshold feather
                       dilate_iters keep_structure) = Raises e0).
    { unfold process_one, rel_dir_of in *.
      destruct keep_structure; [|discriminate]. now rewrite Er. }
    rewrite E. split.
    + intros [= <-]. now left.
    + intros [[= <-] | (d & H & _)]; [reflexivity | discriminate].
Qed.

(** C8. When [cv2.imread] returns no image, [process_one] returns the
    outcome "SKIP (unreadable): <input path>", which counts as skipped and
    not as an error, and [cv2.imwrite] is never called: the trace is the
    directory creation and the read. *)
Theorem unreadable_is_skipped args in_path out_dir threshold feather
  dilate_iters keep_structure target_dir :
  target_dir_of W args in_path out_dir keep_structure = Returns target_dir ->
  os_makedirs W target_dir = Returns tt ->
  cv2_imread W in_path = Returns None ->
  let run := process_one' args in_path out_dir threshold feather dilate_iters
               keep_structure in
  let outcome := ("SKIP (unreadable): " ++ in_path)%string in
  snd run = Returns outcome /\
  fst run = [Makedirs target_dir; Imread in_path] /\
  (forall p img, ~ In (Imwrite p img) (fst run)) /\
  str.startswith outcome "SKIP" = true /\
  str.startswith outcome "ERROR" = false.
Proof.
  intros Ht Hm Hr. cbv zeta.
  rewrite (process_one_upto_imread _ _ _ _ _ _ _ _ Ht Hm), Hr.
  simpl. repeat split; try reflexivity.
  intros p img [H | [H | []]]; discriminate.
Qed.

(** *** Tallies *)

Lemma pool_map_results {A B} (f : A -> M B) (l : list A) t results :
  pool_map f l = (t, Returns results) ->
  Forall2 (fun x r => snd (f x) = Returns r) l results.
Proof.
  revert t results; induction l as [|x l IH]; intros t results H; simpl in H.
  - injection H as _ <-. constructor.
  - destruct (f x) as [tx [b|e]] eqn:Ex;
      destruct (pool_map f l) as [tl [bs|e']]; try discriminate.
    injection H as _ <-. constructor; [now rewrite Ex|].
    eapply IH; reflexivity.
Qed.

Lemma pool_map_returns {A B} (f : A -> M B) (l : list A) results :
  Forall2 (fun x r => snd (f x) = Returns r) l results ->
  exists t, pool_map f l = (t, Returns results).
Proof.
  induction 1 as [|x r l results Hx _ (t & IH)]; simpl.
  - eexists. reflexivity.
  - destruct (f x) as [tx rx]. simpl in Hx. subst rx. rewrite IH.
    eexists. reflexivity.
Qed.

Lemma count_prefix_cons p r results :
  count_prefix p (r :: results) =
  ((if str.startswith r p then 1 else 0) + count_prefix p results)%nat.
Proof. unfold count_prefix. simpl. now destruct (str.startswith r p). Qed.

Lemma tallies_partition (results : list string) :
  Forall one_prefix results ->
  (count_prefix "OK" results + count_prefix "ERROR" results
   + count_prefix "SKIP" results = List.length results)%nat.
Proof.
  induction 1 as [|r results Hr _ IH]; [reflexivity|].
  rewrite !count_prefix_cons. simpl List.length.
  destruct Hr as [(-> & -> & ->) | [(-> & -> & ->) | (-> & -> & ->)]]; lia.
Qed.

(** The tallies do not depend on the order in which the results were
    collected (the order of [as_completed]). *)
Lemma count_prefix_perm p (l l' : list string) :
  Permutation l l' -> count_prefix p l = count_prefix p l'.
Proof.
  induction 1 as [|x l l' _ IH|x y l|l l' l'' _ IH1 _ IH2];
    rewrite ?count_prefix_cons; try lia.
Qed.

#[local] Abbreviation main' := (main cv W).

(** C10. Every outcome string of [process_one] starts with exactly one of
    "OK", "ERROR" and "SKIP"; so when a batch run gets to its summary, the
    three counts it prints add up to the number of files it processed, in
    whichever order the results were collected.  A run gets there whenever
    every call of [process_one] returns. *)
Theorem tallies_add_up args :
  (forall in_path out_dir threshold feather dilate_iters keep_structure s,
     snd (process_one' args in_path out_dir threshold feather dilate_iters
            keep_structure) = Returns s ->
     one_prefix s) /\
  (forall results,
     os_path_isdir W (args_input args) = true ->
     os_makedirs W (args_output args) = Returns tt ->
     list_images W (args_input args) <> [] ->
     0 < args_workers args ->
     Forall2
       (fun f r =>
          snd (process_one' args f (args_output args) (args_threshold args)
                 (args_feather args) (args_dilate args)
                 (args_keep_structure args)) = Returns r)
       (list_images W (args_input args)) results ->
     exists t,
       main' args = (t, Returns 0) /\
       reports_summary t (count_prefix "OK" results)
         (count_prefix "ERROR" results) (count_prefix "SKIP" results)) /\
  (forall t code,
     main' args = (t, Returns code) ->
     os_path_isdir W (args_input args) = true ->
     list_images W (args_input args) <> [] ->
     exists results,
       Forall2
         (fun f r =>
            snd (process_one' args f (args_output args) (args_threshold args)
                   (args_feather args) (args_dilate args)
                   (args_keep_structure args)) = Returns r)
         (list_images W (args_input args)) results /\
       reports_summary t (count_prefix "OK" results)
         (count_prefix "ERROR" results) (count_prefix "SKIP" results) /\
       forall collected, Permutation results collected ->
         (count_prefix "OK" collected + count_prefix "ERROR" collected
          + count_prefix "SKIP" collected
          = List.length (list_images W (args_input args)))%nat).
Proof.
  split; [intros; eapply process_one_one_prefix; eauto|].
  split.
  { intros results Hdir Hm Hfiles Hw HF. unfold main. rewrite Hdir, Hm.
    cbn [negb]. unfold call, lift, bind, ret.
    destruct (list_images W (args_input args)) as [|f files] eqn:El;
      [contradiction|].
    apply Z.leb_gt in Hw. rewrite Hw.
    destruct (pool_map_returns _ _ _ HF) as (tp & ->).
    eexists. split; [reflexivity|].
    unfold reports_summary. simpl. right. apply in_or_app. right.
    simpl. now left. }
  intros t code H Hdir Hfiles. unfold main in H. rewrite Hdir in H.
  cbn [negb] in H. unfold call, lift, bind, ret in H.
  destruct (os_makedirs W (args_output args)) as [u|e]; [|discriminate].
  destruct (list_images W (args_input args)) as [|f files] eqn:El;
    [contradiction|].
  destruct (args_workers args <=? 0); [discriminate|].
  destruct (pool_map _ (f :: files)) as [tp [results|e]] eqn:Ep;
    [|discriminate].
  injection H as <- _. exists results.
  pose proof (pool_map_results _ _ _ _ Ep) as HF.
  split; [exact HF|]. split.
  - unfold reports_summary. simpl. right. apply in_or_app. right.
    simpl. now left.
  - intros collected Hperm.
    rewrite <- !(count_prefix_perm _ _ _ Hperm).
    rewrite tallies_partition.
    + symmetry. eapply Forall2_length, HF.
    + clear -HF. induction HF as [|x r l l' Hx _ IH]; constructor; trivial.
      eapply process_one_one_prefix, Hx.
Qed.

(** C7, as amended. When the input folder holds no eligible file, [main]
    creates the output folder, prints "No images found in the input folder."
    and returns exit status 0; it reads and writes no image and prints no
    summary. *)
Theorem empty_folder_returns_early args :
  os_path_isdir W (args_input args) = true ->
  os_makedirs W (args_output args) = Returns tt ->
  list_images W (args_input args) = [] ->
  main' args =
    ([Makedirs (args_output args);
      Print "No images found in the input folder."], Returns 0) /\
  ~ touches_images (fst (main' args)) /\
  forall ok err skip, ~ reports_summary (fst (main' args)) ok err skip.
Proof.
  intros Hdir Hm Hl.
  assert (E : main' args =
              ([Makedirs (args_output args);
                Print "No images found in the input folder."], Returns 0)).
  { unfold main. now rewrite Hdir, Hm, Hl. }
  rewrite E. split; [reflexivity|]. split.
  - intros (e & [<- | [<- | []]] & He); exact He.
  - intros ok err skip [H | [H | []]]; discriminate.
Qed.

End ProcessOneFacts.

(** ** The outcome properties at the sample folders *)

Lemma unreadable_is_skipped_witness :
  let run := process_one sample_cv sample_world (sample_args true)
               "./in/sub/broken.png" "./out" 20 3 1 true in
  let outcome := "SKIP (unreadable): ./in/sub/broken.png"%string in
  snd run = Returns outcome /\
  fst run = [Makedirs "./out/sub"; Imread "./in/sub/broken.png"] /\
  (forall p img, ~ In (Imwrite p img) (fst run)) /\
  str.startswith outcome "SKIP" = true /\
  str.startswith outcome "ERROR" = false.
Proof.
  apply (unreadable_is_skipped sample_cv sample_world (sample_args true)
           "./in/sub/broken.png" "./out" 20 3 1 true "./out/sub");
    reflexivity.
Defined.

Lemma tallies_add_up_witness :
  exists results,
    Forall2
      (fun f r =>
         snd (process_one sample_cv sample_world (sample_args true) f
                "./out" 20 3 1 true) = Returns r)
      (list_images sample_world "./in") results /\
    reports_summary (fst (main sample_cv sample_world (sample_args true)))
      (count_prefix "OK" results) (count_prefix "ERROR" results)
      (count_prefix "SKIP" results) /\
    forall collected, Permutation results collected ->
      (count_prefix "OK" collected + count_prefix "ERROR" collected
       + count_prefix "SKIP" collected
       = List.length (list_images sample_world "./in"))%nat.
Proof.
  apply (proj2 (proj2 (tallies_add_up sample_cv sample_world
                         (sample_args true)))
           (fst (main sample_cv sample_world (sample_args true))) 0).
  - vm_compute. reflexivity.
  - reflexivity.
  - discriminate.
Defined.

Lemma empty_folder_returns_early_witness :
  main sample_cv empty_world (sample_args false) =
    ([Makedirs "./out"; Print "No images found in the input folder."],
     Returns 0) /\
  ~ touches_images (fst (main sample_cv empty_world (sample_args false))) /\
  forall ok err skip,
    ~ reports_summary (fst (main sample_cv empty_world (sample_args false)))
        ok err skip.
Proof.
  apply (empty_folder_returns_early sample_cv empty_world
           (sample_args false)); reflexivity.
Defined.

(** C7 as it is stated does not hold on the folder without pictures: no
    eligible file is found there, and the run ends with exit status 0
    without having reported the summary of three zeros. *)
Lemma empty_folder_prints_no_summary :
  list_images empty_world "./in" = [] /\
  snd (main sample_cv empty_world (sample_args false)) = Returns 0 /\
  ~ reports_summary (fst (main sample_cv empty_world (sample_args false)))
      0 0 0.
Proof.
  split; [reflexivity|]. split; [reflexivity|].
  intros [H | [H | []]]; discriminate.
Qed.

(** C6 does not hold on the folder whose [./out/sub] is a regular file:
    [os.makedirs] is called before the [try] of [process_one], so its
    exception leaves [process_one], no outcome is returned for this
    eligible file, and the run of [main] ends with that exception instead
    of a summary. *)
Theorem makedirs_error_escapes :
  process_one sample_cv blocked_world (sample_args true)
    "./in/sub/img.jpg" "./out" 20 3 1 true
  = ([Makedirs "./out/sub"],
     Raises (Exn "FileExistsError" "[Errno 17] File exists: './out/sub'")) /\
  In "./in/sub/img.jpg"%string (list_images blocked_world "./in") /\
  snd (main sample_cv blocked_world (sample_args true))
  = Raises (Exn "FileExistsError" "[Errno 17] File exists: './out/sub'").
Proof.
  split; [reflexivity|]. split; [|reflexivity].
  simpl. auto.
Qed.

(* ===================================================================== *)
(** * Part III: further properties of the script                          *)
(* ===================================================================== *)

(** ** process_one, case by case *)

(** X1. [process_one] touches the world at most three times and in this
    order: it creates the target directory, reads its own input path, and
    writes one file, at the output path, holding what
    [remove_black_background_array] returned for the decoded image.  It
    prints nothing and reads or writes no other path. *)
Theorem process_one_trace_discipline cv W args in_path out_dir threshold
  feather dilate_iters keep :
  let t := fst (process_one cv W args in_path out_dir threshold feather
                  dilate_iters keep) in
  t = [] \/
  exists target_dir out_path,
    target_dir_of W args in_path out_dir keep = Returns target_dir /\
    out_path_of W args in_path out_dir keep = Returns out_path /\
    (t = [Makedirs target_dir] \/
     t = [Makedirs target_dir; Imread in_path] \/
     exists bgr bgra,
       cv2_imread W in_path = Returns (Some bgr) /\
       remove_black_background_array cv (Some bgr) threshold feather
         dilate_iters = Returns bgra /\
       t = [Makedirs target_dir; Imread in_path; Imwrite out_path bgra]).
Proof.
  cbv zeta. rewrite process_one_is_tree. unfold process_one_tree.
  destruct (rel_dir_of W args in_path keep) as [rel|e0] eqn:Er; [|now left].
  right. destruct (target_dir_of_join W args in_path out_dir keep rel Er)
    as [Ht Ho].
  exists (posixpath.join out_dir [rel]).
  exists (posixpath.join (posixpath.join out_dir [rel])
            [stem_of in_path ++ ".png"]).
  split; [exact Ht|]. split; [exact Ho|].
  destruct (os_makedirs W _) as [u|e1]; [|now left].
  destruct (cv2_imread W in_path) as [[bgr|]|e2]; try (right; now left).
  destruct (remove_black_background_array cv (Some bgr) threshold
              feather dilate_iters) as [bgra|e3] eqn:Eb;
    [|right; now left].
  right. right. exists bgr, bgra. auto.
Qed.

(** X2. An image that decodes to an array without pixels is reported as
    an error of that file: [remove_black_background_array] raises its
    ValueError, the [except] of [process_one] turns it into the outcome
    "ERROR (<input path>): Empty image provided", and nothing is written. *)
Theorem empty_image_is_error cv W args in_path out_dir threshold feather
  dilate_iters keep target_dir bgr :
  target_dir_of W args in_path out_dir keep = Returns target_dir ->
  os_makedirs W target_dir = Returns tt ->
  cv2_imread W in_path = Returns (Some bgr) ->
  size3 bgr = 0 ->
  process_one cv W args in_path out_dir threshold feather dilate_iters keep
  = ([Makedirs target_dir; Imread in_path],
     Returns ("ERROR (" ++ in_path ++ "): Empty image provided")).
Proof.
  intros Ht Hm Hr Hs. rewrite process_one_is_tree. unfold process_one_tree.
  unfold target_dir_of in Ht.
  destruct (rel_dir_of W args in_path keep) as [rel|e0]; [|discriminate].
  injection Ht as Ht. cbn [posixpath.join fold_left] in *. rewrite Ht, Hm, Hr.
  unfold remove_black_background_array. rewrite Hs. reflexivity.
Qed.

(** X3. Once an image is decoded and its own alpha is computed, the
    outcome follows the answer of [cv2.imwrite]: "OK: <output path>" when
    it returns [True], "ERROR (write failed): <output path>" when it
    returns [False], and "ERROR (<input path>): <message>" when it raises.
    In each case the write was attempted once, at the output path. *)
Theorem outcome_follows_imwrite cv W args in_path out_dir threshold feather
  dilate_iters keep target_dir out_path bgr bgra :
  target_dir_of W args in_path out_dir keep = Returns target_dir ->
  out_path_of W args in_path out_dir keep = Returns out_path ->
  os_makedirs W target_dir = Returns tt ->
  cv2_imread W in_path = Returns (Some bgr) ->
  remove_black_background_array cv (Some bgr) threshold feather dilate_iters
    = Returns bgra ->
  let run := process_one cv W args in_path out_dir threshold feather
               dilate_iters keep in
  fst run = [Makedirs target_dir; Imread in_path; Imwrite out_path bgra] /\
  (cv2_imwrite W out_path bgra = Returns true ->
   snd run = Returns ("OK: " ++ out_path)) /\
  (cv2_imwrite W out_path bgra = Returns false ->
   snd run = Returns ("ERROR (write failed): " ++ out_path)) /\
  (forall e, cv2_imwrite W out_path bgra = Raises e ->
   snd run = Returns ("ERROR (" ++ in_path ++ "): " ++ exn_msg e)).
Proof.
  intros Ht Ho Hm Hr Hb. cbv zeta. rewrite process_one_is_tree.
  unfold process_one_tree.
  destruct (rel_dir_of W args in_path keep) as [rel|e0] eqn:Er;
    [|unfold target_dir_of in Ht; rewrite Er in Ht; discriminate].
  destruct (target_dir_of_join W args in_path out_dir keep rel Er)
    as [Ht' Ho'].
  rewrite Ht' in Ht. rewrite Ho' in Ho.
  injection Ht as Ht. injection Ho as Ho. subst target_dir out_path.
  cbn [posixpath.join fold_left] in *. rewrite Hm, Hr, Hb.
  cbn [fst snd]. split; [reflexivity|].
  repeat split; intros; match goal with H : cv2_imwrite _ _ _ = _ |- _ =>
                                          now rewrite H end.
Qed.

(** X4. An outcome that starts with "OK" is never given lightly: the input
    was decoded, its result was handed to [cv2.imwrite] at the output path
    named in the outcome, and [cv2.imwrite] returned [True]. *)
Theorem ok_means_written cv W args in_path out_dir threshold feather
  dilate_iters keep s :
  snd (process_one cv W args in_path out_dir threshold feather
         dilate_iters keep) = Returns s ->
  str.startswith s "OK" = true ->
  exists out_path bgr bgra,
    s = "OK: " ++ out_path /\
    out_path_of W args in_path out_dir keep = Returns out_path /\
    cv2_imread W in_path = Returns (Some bgr) /\
    remove_black_background_array cv (Some bgr) threshold feather
      dilate_iters = Returns bgra /\
    cv2_imwrite W out_path bgra = Returns true /\
    In (Imwrite out_path bgra)
       (fst (process_one cv W args in_path out_dir threshold feather
               dilate_iters keep)).
Proof.
  rewrite process_one_is_tree. unfold process_one_tree.
  destruct (rel_dir_of W args in_path keep) as [rel|e0] eqn:Er;
    [|discriminate].
  destruct (target_dir_of_join W args in_path out_dir keep rel Er)
    as [_ Ho].
  destruct (os_makedirs W _) as [u|e1]; [|discriminate].
  destruct (cv2_imread W in_path) as [[bgr|]|e2]; cbn [snd];
    try discriminate; try (intros [= <-]; discriminate).
  destruct (remove_black_background_array cv (Some bgr) threshold
              feather dilate_iters) as [bgra|e3] eqn:Eb; cbn [snd fst];
    try (intros [= <-]; discriminate).
  destruct (cv2_imwrite W _ bgra) as [[|]|e4] eqn:Ew;
    try (intros [= <-]; discriminate).
  intros [= <-] _. eexists. exists bgr, bgra.
  split; [reflexivity|]. split; [exact Ho|]. split; [reflexivity|].
  split; [exact Eb|]. split; [exact Ew|]. simpl. auto.
Qed.

Lemma dirname_nosep (p : string) :
  contains posixpath.sep p = false -> posixpath.dirname p = EmptyString.
Proof.
  intros H. unfold posixpath.dirname, str.slice_to.
  rewrite (rfind_nosep _ p H). reflexivity.
Qed.

(** X5. With structure preservation, an input path without a directory
    part makes [os.path.relpath] raise "no path specified"; the call is
    made before the [try], so the ValueError leaves [process_one] before
    the file system is touched. *)
Theorem bare_name_raises_with_structure cv W args in_path out_dir threshold
  feather dilate_iters :
  contains posixpath.sep in_path = false ->
  process_one cv W args in_path out_dir threshold feather dilate_iters true
  = ([], Raises (ValueError "no path specified")).
Proof.
  intros H. rewrite process_one_is_tree.
  unfold process_one_tree, rel_dir_of. now rewrite (dirname_nosep _ H).
Qed.

Lemma commonprefix_len_refl (l : list string) :
  posixpath.commonprefix_len l l = List.length l.
Proof.
  induction l as [|a l IH]; simpl; [reflexivity|].
  now rewrite String.eqb_refl, IH.
Qed.

Lemma relpath_self cwd path :
  path <> EmptyString -> posixpath.relpath cwd path path = Returns ".".
Proof.
  intros H. unfold posixpath.relpath. apply String.eqb_neq in H. rewrite H.
  cbv zeta. rewrite commonprefix_len_refl, Nat.sub_diag, skipn_all.
  reflexivity.
Qed.

(** X6. With structure preservation, a picture that lies directly in the
    input root is not written to [<output>/<stem>.png] but to
    [<output>/./<stem>.png]: the relative directory of the root itself is
    ".", and it is joined in like any other. *)
Theorem top_level_file_goes_under_dot W args out_dir fn :
  args_input args <> EmptyString ->
  str.endswith (args_input args) posixpath.sep = false ->
  contains posixpath.sep fn = false ->
  let in_path := args_input args ++ "/" ++ fn in
  let png := fst (posixpath.splitext fn) ++ ".png" in
  rel_dir_of W args in_path true = Returns "." /\
  out_path_of W args in_path out_dir true
    = Returns (posixpath.join out_dir ["."; png]) /\
  (out_dir <> EmptyString -> str.endswith out_dir posixpath.sep = false ->
   out_path_of W args in_path out_dir true
     = Returns (out_dir ++ "/./" ++ png)).
Proof.
  intros Hroot Hend Hfn in_path png.
  assert (Ein : in_path = args_input args ++ String posixpath.sep fn)
    by reflexivity.
  clearbody in_path. subst in_path.
  set (in_path := args_input args ++ String posixpath.sep fn).
  assert (Hd : posixpath.dirname in_path = args_input args)
    by now apply dirname_append.
  assert (Hstem : stem_of in_path = fst (posixpath.splitext fn))
    by (unfold stem_of, in_path; now rewrite basename_append).
  assert (Hr : rel_dir_of W args in_path true = Returns ".")
    by (unfold rel_dir_of; rewrite Hd; now apply relpath_self).
  split; [exact Hr|].
  assert (Ho : out_path_of W args in_path out_dir true
               = Returns (posixpath.join out_dir ["."; png]))
    by (unfold out_path_of, target_dir_of; now rewrite Hr, Hstem).
  split; [exact Ho|].
  intros Hout Hoe. rewrite Ho. cbn [posixpath.join fold_left].
  rewrite (join2_plain out_dir ".") by trivial.
  rewrite join2_plain.
  - now rewrite !append_assoc.
  - destruct out_dir; discriminate.
  - now rewrite endswith_append by discriminate.
  - apply nosep_startswith. unfold png. rewrite contains_append.
    assert (Hs : contains posixpath.sep (fst (posixpath.splitext fn)) = false).
    { rewrite <- Hstem. apply stem_nosep. }
    now rewrite Hs.
Qed.

(** ** main, case by case *)

Lemma pool_map_trace {A B} (f : A -> M B) (l : list A) :
  fst (pool_map f l) = flat_map (fun x => fst (f x)) l.
Proof.
  induction l as [|x l IH]; [reflexivity|]. simpl.
  destruct (f x) as [tx rx]. destruct (pool_map f l) as [tl rl].
  simpl in *. now rewrite IH.
Qed.

Lemma pool_map_raises {A B} (f : A -> M B) (l : list A) x e :
  In x l -> snd (f x) = Raises e -> exists e', snd (pool_map f l) = Raises e'.
Proof.
  induction l as [|y l IH]; [contradiction|]. intros [-> | Hin] Hx; simpl.
  - destruct (f x) as [tx rx]. simpl in Hx. subst rx.
    destruct (pool_map f l) as [tl rl]. simpl. eauto.
  - destruct (IH Hin Hx) as (e' & He').
    destruct (f y) as [ty [b|e1]]; destruct (pool_map f l) as [tl rl];
      simpl in *; subst; eauto.
Qed.

(** [main] as a decision tree over the answers of the world. *)
Lemma main_cases cv W args :
  main cv W args =
  if negb (os_path_isdir W (args_input args)) then
    ([PrintErr ("Input folder does not exist: " ++ args_input args)], Returns 2)
  else
    match os_makedirs W (args_output args) with
    | Raises e => ([Makedirs (args_output args)], Raises e)
    | Returns _ =>
        match list_images W (args_input args) with
        | [] => ([Makedirs (args_output args);
                  Print "No images found in the input folder."], Returns 0)
        | f :: files =>
            if args_workers args <=? 0 then
              ([Makedirs (args_output args)],
               Raises (ValueError "max_workers must be greater than 0"))
            else
              match pool_map
                      (fun f => process_one cv W args f (args_output args)
                                  (args_threshold args) (args_feather args)
                                  (args_dilate args) (args_keep_structure args))
                      (f :: files) with
              | (tp, Returns results) =>
                  (Makedirs (args_output args)
                   :: tp ++ [Print (summary_line (count_prefix "OK" results)
                                      (count_prefix "ERROR" results)
                                      (count_prefix "SKIP" results))],
                   Returns 0)
              | (tp, Raises e) => (Makedirs (args_output args) :: tp, Raises e)
              end
        end
    end.
Proof.
  unfold main. destruct (negb (os_path_isdir W (args_input args)));
    [reflexivity|].
  unfold call, lift, bind, ret.
  destruct (os_makedirs W (args_output args)) as [u|e]; [|reflexivity].
  destruct (list_images W (args_input args)) as [|f files]; [reflexivity|].
  destruct (args_workers args <=? 0); [reflexivity|].
  destruct (pool_map _ (f :: files)) as [tp [results|e]]; [|reflexivity].
  simpl. reflexivity.
Qed.

(** What a call of [process_one] can leave in the trace. *)
Lemma process_one_events cv W args in_path out_dir threshold feather
  dilate_iters keep e :
  In e (fst (process_one cv W args in_path out_dir threshold feather
               dilate_iters keep)) ->
  (exists d, e = Makedirs d /\
             target_dir_of W args in_path out_dir keep = Returns d) \/
  e = Imread in_path \/
  (exists p img, e = Imwrite p img /\
                 out_path_of W args in_path out_dir keep = Returns p).
Proof.
  rewrite process_one_is_tree. unfold process_one_tree.
  destruct (rel_dir_of W args in_path keep) as [rel|e0] eqn:Er; [|intros []].
  destruct (target_dir_of_join W args in_path out_dir keep rel Er)
    as [Ht Ho].
  assert (Cases : In e [Makedirs (posixpath.join out_dir [rel]);
                        Imread in_path] \/
                  (exists img,
                     e = Imwrite (posixpath.join (posixpath.join out_dir [rel])
                                    [stem_of in_path ++ ".png"]) img) ->
                  (exists d, e = Makedirs d /\
                     target_dir_of W args in_path out_dir keep = Returns d) \/
                  e = Imread in_path \/
                  (exists p img, e = Imwrite p img /\
                     out_path_of W args in_path out_dir keep = Returns p)).
  { intros [[<- | [<- | []]] | (img & ->)]; eauto 6. }
  destruct (os_makedirs W _) as [u|e1].
  2:{ intros [<- | []]. eauto. }
  destruct (cv2_imread W in_path) as [[bgr|]|e2];
    try (intros H; apply Cases; now left).
  destruct (remove_black_background_array cv (Some bgr) threshold
              feather dilate_iters) as [bgra|e3];
    try (intros H; apply Cases; now left).
  cbn [fst]. intros [<- | [<- | [<- | []]]]; apply Cases; simpl; eauto.
Qed.

(** X7. [main] returns exit status 2 exactly when the input folder does
    not exist; it has then only printed the message on stderr and has not
    created the output folder.  Every other run that ends without an
    exception returns 0. *)
Theorem main_exit_status cv W args :
  (os_path_isdir W (args_input args) = false ->
   main cv W args =
     ([PrintErr ("Input folder does not exist: " ++ args_input args)],
      Returns 2)) /\
  (forall t code,
     main cv W args = (t, Returns code) ->
     (code = 2 /\ os_path_isdir W (args_input args) = false) \/
     (code = 0 /\ os_path_isdir W (args_input args) = true)).
Proof.
  rewrite main_cases. split.
  - now intros ->.
  - intros t code. destruct (os_path_isdir W (args_input args));
      cbn [negb]; [|intros [= _ <-]; now left].
    destruct (os_makedirs W (args_output args)); [|discriminate].
    destruct (list_images W (args_input args)); [intros [= _ <-]; now right|].
    destruct (args_workers args <=? 0); [discriminate|].
    destruct (pool_map _ _) as [tp [results|e]]; [|discriminate].
    intros [= _ <-]. now right.
Qed.

(** X8. With a worker count of zero or less and at least one eligible
    file, creating the thread pool raises "max_workers must be greater
    than 0": the run ends there, after the output folder was created and
    before any file was read.  With no eligible file the early return
    comes first and the worker count does not matter. *)
Theorem no_workers_no_run cv W args :
  os_path_isdir W (args_input args) = true ->
  os_makedirs W (args_output args) = Returns tt ->
  args_workers args <= 0 ->
  (list_images W (args_input args) <> [] ->
   main cv W args =
     ([Makedirs (args_output args)],
      Raises (ValueError "max_workers must be greater than 0"))) /\
  (list_images W (args_input args) = [] ->
   snd (main cv W args) = Returns 0).
Proof.
  intros Hdir Hm Hw. rewrite main_cases, Hdir, Hm. cbn [negb].
  apply Z.leb_le in Hw. split.
  - destruct (list_images W (args_input args)); [congruence|].
    now rewrite Hw.
  - now intros ->.
Qed.



(** X10. When one call of [process_one] raises, the run of [main] ends
    with an exception: it returns no exit status and never calls
    [print], so in particular no summary appears. *)
Theorem one_raise_ends_the_run cv W args f e :
  os_path_isdir W (args_input args) = true ->
  In f (list_images W (args_input args)) ->
  snd (process_one cv W args f (args_output args) (args_threshold args)
         (args_feather args) (args_dilate args) (args_keep_structure args))
    = Raises e ->
  (exists e', snd (main cv W args) = Raises e') /\
  (forall line, ~ In (Print line) (fst (main cv W args))) /\
  (forall ok err skip, ~ reports_summary (fst (main cv W args)) ok err skip).
Proof.
  intros Hdir Hf He.
  assert (Hsnd : exists e', snd (main cv W args) = Raises e').
  { rewrite main_cases, Hdir. cbn [negb].
    destruct (os_makedirs W (args_output args)); [|simpl; eauto].
    destruct (list_images W (args_input args)) as [|f0 files] eqn:El;
      [contradiction|].
    destruct (args_workers args <=? 0); [simpl; eauto|].
    destruct (pool_map_raises
                (fun f => process_one cv W args f (args_output args)
                            (args_threshold args) (args_feather args)
                            (args_dilate args) (args_keep_structure args))
                (f0 :: files) f e Hf He) as (e' & He').
    destruct (pool_map _ (f0 :: files)) as [tp rp]. simpl in He'. subst rp.
    simpl. eauto. }
  assert (Hprint : forall line, ~ In (Print line) (fst (main cv W args))).
  { intros line H. destruct Hsnd as (e' & Hsnd). revert H Hsnd.
    rewrite main_cases, Hdir. cbn [negb].
    destruct (os_makedirs W (args_output args));
      [|intros [H | []]; discriminate].
    destruct (list_images W (args_input args)) as [|f0 files] eqn:El;
      [contradiction|].
    destruct (args_workers args <=? 0); [intros [H | []]; discriminate|].
    pose proof (pool_map_trace
                  (fun f => process_one cv W args f (args_output args)
                              (args_threshold args) (args_feather args)
                              (args_dilate args) (args_keep_structure args))
                  (f0 :: files)) as Ht.
    destruct (pool_map _ (f0 :: files)) as [tp [results|e1]]; cbn [fst] in Ht;
      subst tp; cbn [fst snd]; [discriminate|].
    intros [H | H] _; [discriminate|].
    apply in_flat_map in H as (x & _ & H).
    apply process_one_events in H.
    destruct H as [(d & H & _) | [H | (p & img & H & _)]]; discriminate. }
  split; [exact Hsnd|]. split; [exact Hprint|].
  intros ok err skip H. eapply Hprint, H.
Qed.

Lemma reads_app (t t' : list event) : reads (t ++ t') = (reads t ++ reads t')%list.
Proof. apply flat_map_app. Qed.

(** A call of [process_one] that returns has read its input, once. *)
Lemma process_one_reads cv W args in_path out_dir threshold feather
  dilate_iters keep s :
  snd (process_one cv W args in_path out_dir threshold feather
         dilate_iters keep) = Returns s ->
  reads (fst (process_one cv W args in_path out_dir threshold feather
                dilate_iters keep)) = [in_path] /\
  str.startswith s "SKIP" = unreadable W in_path.
Proof.
  rewrite process_one_is_tree. unfold process_one_tree, unreadable.
  destruct (rel_dir_of W args in_path keep) as [rel|e0]; [|discriminate].
  destruct (os_makedirs W _) as [u|e1]; [|discriminate].
  destruct (cv2_imread W in_path) as [[bgr|]|e2]; [| |discriminate].
  - destruct (remove_black_background_array cv (Some bgr) threshold
                feather dilate_iters) as [bgra|e3]; cbn [fst snd].
    + destruct (cv2_imwrite W _ bgra) as [[|]|e4]; intros [= <-];
        split; reflexivity.
    + intros [= <-]. split; reflexivity.
  - cbn [fst snd]. intros [= <-]. split; reflexivity.
Qed.

Lemma pool_reads cv W args out_dir threshold feather dilate_iters keep
  (files results : list string) :
  Forall2
    (fun f r =>
       snd (process_one cv W args f out_dir threshold feather dilate_iters
              keep) = Returns r)
    files results ->
  reads (flat_map
           (fun f => fst (process_one cv W args f out_dir threshold feather
                            dilate_iters keep))
           files) = files /\
  count_prefix "SKIP" results = List.length (filter (unreadable W) files).
Proof.
  induction 1 as [|f r files results Hf _ [IH1 IH2]]; [now split|].
  destruct (process_one_reads _ _ _ _ _ _ _ _ _ _ Hf) as [Hr Hs].
  split.
  - cbn [flat_map]. now rewrite reads_app, Hr, IH1.
  - rewrite count_prefix_cons, Hs, IH2. cbn [filter].
    now destruct (unreadable W f).
Qed.

(** X11. A batch run that gets to its end has handed every eligible file
    to [cv2.imread] exactly once, and no other path. *)
Theorem every_file_read_once cv W args t code :
  main cv W args = (t, Returns code) ->
  os_path_isdir W (args_input args) = true ->
  Permutation (reads t) (list_images W (args_input args)).
Proof.
  rewrite main_cases. intros H Hdir. rewrite Hdir in H. cbn [negb] in H.
  destruct (os_makedirs W (args_output args)); [|discriminate].
  destruct (list_images W (args_input args)) as [|f files] eqn:El.
  { injection H as <- _. apply Permutation_refl. }
  destruct (args_workers args <=? 0); [discriminate|].
  pose proof (pool_map_trace
                (fun f => process_one cv W args f (args_output args)
                            (args_threshold args) (args_feather args)
                            (args_dilate args) (args_keep_structure args))
                (f :: files)) as Ht.
  destruct (pool_map _ (f :: files)) as [tp [results|e]] eqn:Ep;
    [|discriminate].
  cbn [fst] in Ht. injection H as <- _.
  apply pool_map_results in Ep.
  destruct (pool_reads _ _ _ _ _ _ _ _ _ _ Ep) as [Hr _].
  change (reads (Makedirs (args_output args) :: ?x)) with (reads x).
  cbn [reads flat_map]. fold (reads (tp ++ [Print (summary_line
      (count_prefix "OK" results) (count_prefix "ERROR" results)
      (count_prefix "SKIP" results))])).
  rewrite reads_app, Ht, Hr. cbn [reads flat_map]. rewrite app_nil_r.
  apply Permutation_refl.
Qed.

(** X12. In the summary of a batch run the count of skipped files is the
    number of eligible files for which [cv2.imread] returned no image; a
    file that decodes is counted as OK or as an error, never as skipped. *)
Theorem skipped_are_the_unreadable cv W args t code :
  main cv W args = (t, Returns code) ->
  os_path_isdir W (args_input args) = true ->
  list_images W (args_input args) <> [] ->
  exists ok err,
    reports_summary t ok err
      (List.length (filter (unreadable W) (list_images W (args_input args)))) /\
    (ok + err
     + List.length (filter (unreadable W) (list_images W (args_input args)))
     = List.length (list_images W (args_input args)))%nat.
Proof.
  rewrite main_cases. intros H Hdir Hne. rewrite Hdir in H. cbn [negb] in H.
  destruct (os_makedirs W (args_output args)); [|discriminate].
  destruct (list_images W (args_input args)) as [|f files] eqn:El;
    [congruence|].
  destruct (args_workers args <=? 0); [discriminate|].
  destruct (pool_map _ (f :: files)) as [tp [results|e]] eqn:Ep;
    [|discriminate].
  injection H as <- _. apply pool_map_results in Ep.
  destruct (pool_reads _ _ _ _ _ _ _ _ _ _ Ep) as [_ Hs].
  exists (count_prefix "OK" results), (count_prefix "ERROR" results).
  rewrite <- Hs. split.
  - unfold reports_summary. right. apply in_or_app. right. now left.
  - rewrite tallies_partition.
    + symmetry. eapply Forall2_length, Ep.
    + clear -Ep. induction Ep as [|x r l l' Hx _ IH]; constructor; trivial.
      eapply process_one_one_prefix, Hx.
Qed.

(** ** How far the dilation reaches *)

Lemma at2_rect_bounds {A} (m : grid A) w i j v :
  rectangular m w -> at2 m i j = Some v ->
  0 <= i < rows m /\ 0 <= j < Z.of_nat w.
Proof.
  intros Hr. unfold at2, rows.
  destruct (i <? 0) eqn:Ei; [discriminate|].
  destruct (j <? 0) eqn:Ej; [discriminate|]. cbn [orb].
  apply Z.ltb_ge in Ei, Ej.
  destruct (nth_error m (Z.to_nat i)) as [row|] eqn:En; [|discriminate].
  intros Hv.
  assert (Hi : (Z.to_nat i < List.length m)%nat)
    by (apply nth_error_Some; congruence).
  assert (Hj : (Z.to_nat j < List.length row)%nat)
    by (apply nth_error_Some; congruence).
  apply nth_error_In in En. unfold rectangular in Hr.
  rewrite Forall_forall in Hr. rewrite (Hr _ En) in Hj. lia.
Qed.

Lemma at2_rect_inside {A} (m : grid A) w i j :
  rectangular m w -> 0 <= i < rows m -> 0 <= j < Z.of_nat w ->
  exists v, at2 m i j = Some v.
Proof.
  intros Hr Hi Hj. unfold at2, rows in *.
  destruct (i <? 0) eqn:Ei; [apply Z.ltb_lt in Ei; lia|].
  destruct (j <? 0) eqn:Ej; [apply Z.ltb_lt in Ej; lia|]. cbn [orb].
  destruct (nth_error m (Z.to_nat i)) as [row|] eqn:En.
  - pose proof (nth_error_In _ _ En) as Hin. unfold rectangular in Hr.
    rewrite Forall_forall in Hr. specialize (Hr _ Hin).
    destruct (nth_error row (Z.to_nat j)) as [v|] eqn:Ev; [eauto|].
    apply nth_error_None in Ev. lia.
  - apply nth_error_None in En. lia.
Qed.

Lemma fold_max_binary (l : list Z) :
  (forall v, In v l -> binary v) ->
  (fold_right Z.max 0 l = 255 <-> In 255 l).
Proof.
  intros Hb. split.
  - intros E. destruct (fold_max_in l) as [H | H]; [lia | now rewrite E in H].
  - intros Hin. pose proof (fold_max_ge l 255 Hin) as Hge.
    destruct (fold_max_in l) as [H | H]; [lia|].
    destruct (Hb _ H) as [E | E]; lia.
Qed.

Lemma dilate_px_binary (m : plane) i j :
  binary_plane m ->
  (dilate_px m i j = 255 <->
   exists di dj, In di offsets3 /\ In dj offsets3 /\
                 at2 m (i + di) (j + dj) = Some 255).
Proof.
  intros Hm. unfold dilate_px. rewrite fold_max_binary.
  - apply In_neighbourhood.
  - intros v Hv. apply In_neighbourhood in Hv as (di & dj & _ & _ & H).
    eapply Hm, H.
Qed.

(** The step towards [i'] from [i]: -1, 0 or 1. *)
Lemma step_towards (n : nat) (i i' lo hi : Z) :
  lo <= i < hi -> lo <= i' < hi -> Z.abs (i - i') <= Z.of_nat (S n) ->
  exists di, In di offsets3 /\ lo <= i + di < hi /\
             Z.abs (i + di - i') <= Z.of_nat n.
Proof.
  intros Hi Hi' Hd. unfold offsets3.
  destruct (Z.lt_trichotomy i' i) as [H | [H | H]].
  - exists (-1). simpl. split; [auto|]. lia.
  - exists 0. simpl. split; [auto|]. lia.
  - exists 1. simpl. split; [auto|]. lia.
Qed.

(** After [n] passes a cell of the mask is set exactly when a cell of the
    original mask at most [n] rows and [n] columns away was set. *)
Lemma iter_dilate_near (m : plane) w n :
  rectangular m w -> binary_plane m ->
  forall i j v,
    at2 (Nat.iter n dilate_once m) i j = Some v ->
    (v = 255 <->
     exists i' j', at2 m i' j' = Some 255 /\ near n i j i' j').
Proof.
  intros Hr Hb. induction n as [|n IH]; intros i j v Hv.
  - simpl in Hv. split.
    + intros ->. exists i, j. split; [exact Hv|]. unfold near. simpl. lia.
    + intros (i' & j' & H & [Hi Hj]). simpl in Hi, Hj.
      replace i' with i in H by lia. replace j' with j in H by lia.
      congruence.
  - change (Nat.iter (S n) dilate_once m)
      with (dilate_once (Nat.iter n dilate_once m)) in Hv.
    rewrite at2_dilate_once in Hv.
    destruct (at2 (Nat.iter n dilate_once m) i j) as [u|] eqn:Eu;
      [|discriminate].
    injection Hv as <-.
    pose proof (iter_dilate_binary m n Hb) as Hbn.
    rewrite (dilate_px_binary _ i j Hbn). split.
    + intros (di & dj & Hdi & Hdj & H).
      apply IH in H. destruct H as [H _]. destruct (H eq_refl)
        as (i' & j' & Hm' & [Hi Hj]).
      exists i', j'. split; [exact Hm'|]. unfold near.
      unfold offsets3 in Hdi, Hdj. simpl in Hdi, Hdj. lia.
    + intros (i' & j' & Hm' & [Hi Hj]).
      destruct (at2_same_shape _ m i j u (shape_iter_dilate m n) Eu)
        as (u0 & Eu0).
      destruct (at2_rect_bounds m w i j u0 Hr Eu0) as [Bi Bj].
      destruct (at2_rect_bounds m w i' j' 255 Hr Hm') as [Bi' Bj'].
      destruct (step_towards n i i' 0 (rows m) Bi Bi' Hi)
        as (di & Hdi & Ba & Na).
      destruct (step_towards n j j' 0 (Z.of_nat w) Bj Bj' Hj)
        as (dj & Hdj & Bb & Nb).
      destruct (at2_rect_inside m w (i + di) (j + dj) Hr Ba Bb) as (x & Ex).
      destruct (at2_same_shape m (Nat.iter n dilate_once m) _ _ x
                  (eq_sym (shape_iter_dilate m n)) Ex) as (y & Ey).
      exists di, dj. split; [exact Hdi|]. split; [exact Hdj|].
      rewrite Ey. f_equal. apply (IH _ _ _ Ey).
      exists i', j'. split; [exact Hm'|]. now split.
Qed.

Lemma rectangular_shape {A B} (x : grid A) (y : grid B) w :
  shape x = shape y -> rectangular x w -> rectangular y w.
Proof.
  unfold rectangular, shape. revert y.
  induction x as [|rx x IH]; intros [|ry y] Hs H; try discriminate;
    constructor; injection Hs as Hr Hs; inversion H; subst.
  - congruence.
  - now apply IH.
Qed.

Lemma not8_zero_iff v : binary v -> (not8 v = 0 <-> v = 255).
Proof.
  intros [-> | ->]; rewrite ?not8_0, ?not8_255; split; intros; lia.
Qed.

(** X13. Without feathering, and when [cv2.dilate] carries out the [n]
    iterations asked for, [dilate = n] makes transparent exactly the
    pixels that have a black-ish pixel of the input at most [n] rows and
    [n] columns away (a negative [n] counts as 0); every other pixel stays
    fully opaque. *)
Theorem dilation_reaches_n_cells cv (bgr : image3) (w : nat)
  (threshold feather dilate : Z) :
  rectangular bgr w ->
  feather_on feather = false ->
  (0 < dilate ->
   dilate_error cv (background_mask bgr threshold 0) dilate = None) ->
  forall i j p, at2 bgr i j = Some p ->
  exists out q,
    remove_black_background_array cv (Some bgr) threshold feather dilate
      = Returns out /\
    at2 out i j = Some q /\
    (a4 q = 0 \/ a4 q = 255) /\
    (a4 q = 0 <->
     exists i' j' p',
       at2 bgr i' j' = Some p' /\ is_black threshold p' = true /\
       near (Z.to_nat dilate) i j i' j').
Proof.
  intros Hr Hf Hd i j p Hp.
  assert (Hs : size3 bgr <> 0)
    by (apply Z.eqb_neq, (at2_Some_size3 _ _ _ _ Hp)).
  rewrite (rbba_dilated cv _ _ _ _ Hs Hd), Hf. cbn [and_then].
  set (m0 := background_mask bgr threshold 0).
  set (mn := background_mask bgr threshold dilate).
  assert (Hmn : mn = Nat.iter (Z.to_nat dilate) dilate_once m0)
    by apply background_mask_iter.
  assert (Hr0 : rectangular m0 w)
    by (eapply rectangular_shape; [|exact Hr];
        symmetry; apply shape_threshold_mask).
  pose proof (threshold_mask_binary bgr threshold) as Hb0. fold m0 in Hb0.
  destruct (at2_same_shape bgr mn i j p) as (v & Ev);
    [unfold mn; now rewrite shape_background_mask | exact Hp |].
  assert (Hbv : binary v)
    by (eapply (background_mask_binary bgr threshold dilate), Ev).
  eexists. exists (BGRA (b3 p) (g3 p) (r3 p) (not8 v)).
  split; [reflexivity|].
  rewrite at2_set_alpha, Hp.
  unfold bitwise_not. rewrite at2_map2d. rewrite Ev.
  cbn [option_map]. split; [reflexivity|]. cbn [a4].
  split; [destruct (not8_binary v Hbv); auto|].
  rewrite (not8_zero_iff v Hbv).
  rewrite Hmn in Ev. rewrite (iter_dilate_near m0 w _ Hr0 Hb0 i j v Ev).
  split.
  - intros (i' & j' & H & Hn). unfold m0 in H.
    rewrite at2_threshold_mask in H.
    destruct (at2 bgr i' j') as [p'|] eqn:Ep'; [|discriminate].
    cbn [option_map] in H. exists i', j', p'.
    split; [exact Ep'|]. split; [|exact Hn].
    destruct (is_black threshold p'); [reflexivity | discriminate].
  - intros (i' & j' & p' & Ep' & Hblack & Hn). exists i', j'.
    split; [|exact Hn]. unfold m0.
    rewrite at2_threshold_mask, Ep'. cbn [option_map]. now rewrite Hblack.
Qed.

(** ** A higher threshold is more aggressive *)

Lemma is_black_mono t1 t2 p :
  t1 <= t2 -> is_black t1 p = true -> is_black t2 p = true.
Proof.
  unfold is_black. intros Ht H.
  apply andb_true_iff in H as [H Hr]. apply andb_true_iff in H as [Hb Hg].
  apply Z.leb_le in Hb, Hg, Hr.
  rewrite !andb_true_iff, !Z.leb_le. lia.
Qed.

Lemma threshold_mask_mono (bgr : image3) t1 t2 :
  t1 <= t2 ->
  plane_le (background_mask bgr t1 0) (background_mask bgr t2 0).
Proof.
  intros Ht i j v w Hv Hw. rewrite at2_threshold_mask in Hv, Hw.
  destruct (at2 bgr i j) as [p|]; [|discriminate].
  cbn [option_map] in Hv, Hw. injection Hv as <-. injection Hw as <-.
  destruct (is_black t1 p) eqn:E1.
  - now rewrite (is_black_mono t1 t2 p Ht E1).
  - destruct (is_black t2 p); lia.
Qed.

Lemma iter_dilate_mono (x y : plane) n :
  shape x = shape y -> plane_le x y ->
  plane_le (Nat.iter n dilate_once x) (Nat.iter n dilate_once y).
Proof.
  intros Hs Hle. induction n as [|n IH]; [exact Hle|].
  change (plane_le (dilate_once (Nat.iter n dilate_once x))
                   (dilate_once (Nat.iter n dilate_once y))).
  apply dilate_once_mono; [|exact IH].
  now rewrite !shape_iter_dilate.
Qed.

Lemma background_mask_mono_threshold (bgr : image3) t1 t2 dilate :
  t1 <= t2 ->
  plane_le (background_mask bgr t1 dilate) (background_mask bgr t2 dilate).
Proof.
  intros Ht.
  rewrite (background_mask_iter bgr t1 dilate),
    (background_mask_iter bgr t2 dilate).
  apply iter_dilate_mono; [|now apply threshold_mask_mono].
  now rewrite !shape_threshold_mask.
Qed.

Section ThresholdFacts.

Variable cv : OpenCV.

(** The same three facts of [cv2.GaussianBlur] as before. *)
Hypothesis GaussianBlur_shape :
  forall a k b, feather_on k = true ->
    GaussianBlur cv a k = Returns b -> shape b = shape a.
Hypothesis GaussianBlur_uint8 :
  forall a k b, feather_on k = true -> uint8_plane a ->
    GaussianBlur cv a k = Returns b -> uint8_plane b.
Hypothesis GaussianBlur_mono :
  forall a b k a' b', feather_on k = true ->
    uint8_plane a -> uint8_plane b -> shape a = shape b -> plane_le a b ->
    GaussianBlur cv a k = Returns a' -> GaussianBlur cv b k = Returns b' ->
    plane_le a' b'.

(** X14. "Higher = more aggressive", as the help text of [--threshold]
    says: with [feather] and [dilate] fixed and [t1 <= t2], whenever the
    calls for [threshold = t1] and [threshold = t2] return, every pixel
    that is transparent (alpha 0) for [t1] is transparent for [t2], and no
    pixel has a larger alpha for [t2] than for [t1].  Both calls return
    when OpenCV raises in neither. *)
Theorem threshold_grows_transparency (bgr : image3) (t1 t2 feather dilate : Z) :
  size3 bgr <> 0 ->
  t1 <= t2 ->
  (opencv_returns cv bgr t1 feather dilate ->
   opencv_returns cv bgr t2 feather dilate ->
   exists out1 out2,
     remove_black_background_array cv (Some bgr) t1 feather dilate
       = Returns out1 /\
     remove_black_background_array cv (Some bgr) t2 feather dilate
       = Returns out2) /\
  forall out1 out2,
    remove_black_background_array cv (Some bgr) t1 feather dilate
      = Returns out1 ->
    remove_black_background_array cv (Some bgr) t2 feather dilate
      = Returns out2 ->
    forall i j q1, at2 out1 i j = Some q1 ->
      exists q2, at2 out2 i j = Some q2 /\
                 0 <= a4 q2 <= a4 q1 /\
                 (a4 q1 = 0 -> a4 q2 = 0).
Proof.
  intros H Ht. split.
  - intros A1 A2.
    destruct (rbba_returns cv _ _ _ _ H A1) as (out1 & E1).
    destruct (rbba_returns cv _ _ _ _ H A2) as (out2 & E2).
    now exists out1, out2.
  - intros out1 out2 E1 E2 i j q1 Hq1.
    apply rbba_inv in E1 as (_ & _ & a1 & H1 & ->).
    apply rbba_inv in E2 as (_ & _ & a2 & H2 & ->).
    destruct (alpha_grows cv GaussianBlur_shape GaussianBlur_uint8
                GaussianBlur_mono bgr _ _ feather a1 a2
                (background_mask_binary bgr t1 dilate)
                (background_mask_binary bgr t2 dilate)
                (shape_background_mask bgr t1 dilate)
                (shape_background_mask bgr t2 dilate)
                (background_mask_mono_threshold bgr t1 t2 dilate Ht)
                H1 H2 i j q1 Hq1) as (q2 & Hq2 & Hle).
    exists q2. split; [exact Hq2|]. split; [exact Hle | lia].
Qed.

End ThresholdFacts.

(** ** An exception of OpenCV is an error of the file *)

(** X18. When [cv2.dilate] refuses the iteration count, or
    [cv2.GaussianBlur] raises, the exception leaves
    [remove_black_background_array]; whatever that function raises for a
    decoded image, the [except] of [process_one] turns it into the outcome
    "ERROR (<input path>): <message>", and nothing is written. *)
Theorem opencv_error_is_reported cv W args in_path out_dir threshold feather
  dilate_iters keep target_dir bgr :
  target_dir_of W args in_path out_dir keep = Returns target_dir ->
  os_makedirs W target_dir = Returns tt ->
  cv2_imread W in_path = Returns (Some bgr) ->
  size3 bgr <> 0 ->
  (forall e,
     0 < dilate_iters ->
     dilate_error cv (background_mask bgr threshold 0) dilate_iters = Some e ->
     remove_black_background_array cv (Some bgr) threshold feather dilate_iters
       = Raises e) /\
  (forall e,
     (0 < dilate_iters ->
      dilate_error cv (background_mask bgr threshold 0) dilate_iters = None) ->
     feather_on feather = true ->
     GaussianBlur cv (bitwise_not (background_mask bgr threshold dilate_iters))
       feather = Raises e ->
     remove_black_background_array cv (Some bgr) threshold feather dilate_iters
       = Raises e) /\
  (forall e,
     remove_black_background_array cv (Some bgr) threshold feather dilate_iters
       = Raises e ->
     process_one cv W args in_path out_dir threshold feather dilate_iters keep
     = ([Makedirs target_dir; Imread in_path],
        Returns ("ERROR (" ++ in_path ++ "): " ++ exn_msg e))).
Proof.
  intros Ht Hm Hr Hs. split; [|split].
  - intros e Hd He. now apply rbba_dilate_raises.
  - intros e Hd Hf He. rewrite (rbba_dilated cv _ _ _ _ Hs Hd), Hf, He.
    reflexivity.
  - intros e He. rewrite process_one_is_tree. unfold process_one_tree.
    unfold target_dir_of in Ht.
    destruct (rel_dir_of W args in_path keep) as [rel|e0]; [|discriminate].
    injection Ht as Ht. cbn [posixpath.join fold_left] in *.
    rewrite Ht, Hm, Hr, He. reflexivity.
Qed.

(** ** Which files list_images yields *)

Lemma In_list_images W root p :
  In p (list_images W root) <->
  exists dirpath filenames fn,
    In (dirpath, filenames) (os_walk W root) /\ In fn filenames /\
    eligible fn = true /\ p = posixpath.join dirpath [fn].
Proof.
  unfold list_images. rewrite in_flat_map. split.
  - intros ([dirpath filenames] & Hw & H).
    apply in_flat_map in H as (fn & Hfn & H).
    exists dirpath, filenames, fn. fold (eligible fn) in H.
    destruct (eligible fn); [|contradiction].
    destruct H as [<- | []]. auto.
  - intros (dirpath & filenames & fn & Hw & Hfn & He & ->).
    exists (dirpath, filenames). split; [exact Hw|].
    apply in_flat_map. exists fn. split; [exact Hfn|].
    fold (eligible fn). rewrite He. now left.
Qed.

Lemma lower_char_keeps_dot a :
  Ascii.eqb (str.lower_char a) "." = Ascii.eqb a ".".
Proof. destruct a as [[] [] [] [] [] [] [] []]; reflexivity. Qed.

Lemma lower_char_keeps_sep a :
  Ascii.eqb (str.lower_char a) "/" = Ascii.eqb a "/".
Proof. destruct a as [[] [] [] [] [] [] [] []]; reflexivity. Qed.

Lemma lower_char_idem a : str.lower_char (str.lower_char a) = str.lower_char a.
Proof. destruct a as [[] [] [] [] [] [] [] []]; reflexivity. Qed.

Lemma lower_idem (s : string) : str.lower (str.lower s) = str.lower s.
Proof.
  induction s as [|a s IH]; simpl; [reflexivity|].
  now rewrite lower_char_idem, IH.
Qed.

Lemma rfind_lower c (s : string) :
  (forall a, Ascii.eqb (str.lower_char a) c = Ascii.eqb a c) ->
  str.rfind c (str.lower s) = str.rfind c s.
Proof.
  intros Hc. induction s as [|a s IH]; [reflexivity|].
  cbn [str.lower str.rfind]. now rewrite IH, Hc.
Qed.

Lemma length_lower (s : string) : String.length (str.lower s) = String.length s.
Proof. induction s as [|a s IH]; simpl; [reflexivity | now rewrite IH]. Qed.

Lemma take_lower n (s : string) :
  str.take n (str.lower s) = str.lower (str.take n s).
Proof.
  revert s; induction n as [|n IH]; intros [|a s]; simpl; trivial.
  now rewrite IH.
Qed.

Lemma drop_lower n (s : string) :
  str.drop n (str.lower s) = str.lower (str.drop n s).
Proof.
  revert s; induction n as [|n IH]; intros [|a s]; simpl; trivial.
Qed.

Lemma lower_is_dot (x : string) :
  (str.lower x =? ".")%string = (x =? ".")%string.
Proof.
  destruct x as [|a t]; [reflexivity|].
  cbn [str.lower String.eqb]. rewrite lower_char_keeps_dot.
  now destruct t.
Qed.

Lemma splitext_scan_lower fuel (p : string) i d :
  posixpath.splitext_scan fuel (str.lower p) i d
  = posixpath.splitext_scan fuel p i d.
Proof.
  revert i. induction fuel as [|fuel IH]; intros i; [reflexivity|].
  cbn [posixpath.splitext_scan]. rewrite IH.
  unfold str.char_at, str.slice_from.
  now rewrite drop_lower, take_lower, lower_is_dot.
Qed.

Lemma splitext_lower (p : string) :
  posixpath.splitext (str.lower p)
  = (str.lower (fst (posixpath.splitext p)),
     str.lower (snd (posixpath.splitext p))).
Proof.
  unfold posixpath.splitext. cbv zeta.
  rewrite (rfind_lower posixpath.sep p lower_char_keeps_sep).
  rewrite (rfind_lower posixpath.extsep p lower_char_keeps_dot).
  rewrite length_lower, splitext_scan_lower.
  destruct (_ && _); cbn [fst snd]; [|reflexivity].
  unfold str.slice_to, str.slice_from. now rewrite take_lower, drop_lower.
Qed.

Lemma eligible_lower (fn : string) : eligible (str.lower fn) = eligible fn.
Proof.
  unfold eligible. rewrite splitext_lower. cbn [snd]. now rewrite lower_idem.
Qed.

(** X15. [list_images] yields [join(dirpath, fn)] for exactly the walked
    file names that pass its test on the extension, and that test does not
    look at the case of the letters: two names that agree after lowering
    are both listed or both left out. *)
Theorem listing_ignores_case W root :
  (forall p,
     In p (list_images W root) <->
     exists dirpath filenames fn,
       In (dirpath, filenames) (os_walk W root) /\ In fn filenames /\
       eligible fn = true /\ p = posixpath.join dirpath [fn]) /\
  (forall fn fn', str.lower fn = str.lower fn' -> eligible fn = eligible fn').
Proof.
  split; [apply In_list_images|].
  intros fn fn' H. now rewrite <- (eligible_lower fn), H, eligible_lower.
Qed.

Lemma rfind_repeat c k (s : string) :
  contains c s = false ->
  str.rfind c (str.repeat c k ++ s) = Z.of_nat k - 1.
Proof.
  intros Hs. induction k as [|k IH].
  - simpl. now apply rfind_nosep.
  - cbn [str.repeat append str.rfind]. rewrite IH, Ascii.eqb_refl.
    destruct (0 <=? Z.of_nat k - 1) eqn:E;
      [apply Z.leb_le in E | apply Z.leb_gt in E]; lia.
Qed.

Lemma drop_repeat c k n (s : string) :
  (n < k)%nat ->
  exists t, str.drop n (str.repeat c k ++ s) = String c t.
Proof.
  revert n. induction k as [|k IH]; intros n Hn; [lia|].
  destruct n as [|n]; simpl; [eauto|]. apply IH. lia.
Qed.

Lemma splitext_scan_dots fuel c0 k (s : string) i d :
  c0 = "."%char -> 0 <= i -> d <= Z.of_nat k ->
  posixpath.splitext_scan fuel (str.repeat c0 k ++ s) i d = false.
Proof.
  intros -> Hi Hd. revert i Hi.
  induction fuel as [|fuel IH]; intros i Hi; [reflexivity|].
  cbn [posixpath.splitext_scan].
  destruct (i <? d) eqn:E; [|reflexivity]. apply Z.ltb_lt in E.
  unfold str.char_at, str.slice_from.
  destruct (drop_repeat "." k (Z.to_nat i) s) as (t & ->); [lia|].
  cbn [str.take negb String.eqb]. rewrite Ascii.eqb_refl.
  cbn [andb negb]. destruct t; cbn [str.take String.eqb negb];
    apply IH; lia.
Qed.

(** X16. A file name without an extension is never listed: a name with no
    dot at all, and also a name whose only dots are at its beginning, such
    as [.png] or [..jpg], which [os.path.splitext] takes as a stem with an
    empty extension. *)
Theorem leading_dots_are_no_extension (k : nat) (s : string) :
  contains "."%char s = false ->
  let fn := str.repeat "." k ++ s in
  posixpath.splitext fn = (fn, EmptyString) /\ eligible fn = false.
Proof.
  intros Hdot fn.
  assert (E : posixpath.splitext fn = (fn, EmptyString)).
  { unfold posixpath.splitext. cbv zeta. unfold fn.
    change posixpath.extsep with "."%char.
    rewrite (rfind_repeat "." k s Hdot).
    rewrite splitext_scan_dots; [| reflexivity | | lia].
    - now rewrite andb_false_r.
    - pose proof (rfind_bounds posixpath.sep (str.repeat "." k ++ s)). lia. }
  split; [exact E|]. unfold eligible. rewrite E. reflexivity.
Qed.

Lemma not_all_char_decomp c (s : string) :
  str.all_char c s = false ->
  exists n a t, s = str.repeat c n ++ String a t /\ Ascii.eqb a c = false.
Proof.
  induction s as [|a s IH]; [discriminate|]. cbn [str.all_char].
  destruct (Ascii.eqb a c) eqn:E.
  - cbn [andb]. intros H. destruct (IH H) as (n & b & t & -> & Hb).
    apply Ascii.eqb_eq in E as ->. now exists (S n), b, t.
  - intros _. now exists O, a, s.
Qed.

Lemma drop_repeat_all c n (s : string) :
  str.drop n (str.repeat c n ++ s) = s.
Proof. induction n as [|n IH]; [now destruct s | exact IH]. Qed.

Lemma splitext_scan_finds fuel n a (rest : string) i d :
  Ascii.eqb a "." = false ->
  0 <= i <= Z.of_nat n -> Z.of_nat n - i < Z.of_nat fuel -> Z.of_nat n < d ->
  posixpath.splitext_scan fuel (str.repeat "." n ++ String a rest) i d = true.
Proof.
  intros Ha. revert i. induction fuel as [|fuel IH]; intros i Hi Hf Hd; [lia|].
  cbn [posixpath.splitext_scan].
  destruct (i <? d) eqn:E; [|apply Z.ltb_ge in E; lia].
  unfold str.char_at, str.slice_from.
  destruct (Z.eq_dec i (Z.of_nat n)) as [-> | Hne].
  - rewrite Nat2Z.id, drop_repeat_all. cbn [str.take String.eqb].
    now rewrite Ha.
  - destruct (drop_repeat "." n (Z.to_nat i) (String a rest)) as (t & ->);
      [lia|].
    cbn [str.take String.eqb]. rewrite Ascii.eqb_refl.
    destruct t; cbn [str.take String.eqb andb negb]; apply IH; lia.
Qed.

(** The extension of [<stem>.<e>] is [.<e>] when [e] has no dot and the
    stem is a name that is not made of dots only. *)
Lemma splitext_stem_ext (stem e : string) :
  contains posixpath.sep stem = false ->
  contains posixpath.sep e = false ->
  contains "."%char e = false ->
  str.all_char "." stem = false ->
  posixpath.splitext (stem ++ String "." e) = (stem, String "." e).
Proof.
  intros Hs He Hd Hall. unfold posixpath.splitext. cbv zeta.
  change posixpath.extsep with "."%char.
  rewrite (rfind_append_sep "." stem e Hd).
  assert (Hsep : str.rfind posixpath.sep (stem ++ String "." e) = -1).
  { apply rfind_nosep. rewrite contains_append, Hs. cbn [contains orb].
    now rewrite He. }
  rewrite Hsep.
  destruct (not_all_char_decomp "." stem Hall) as (n & a & t & Est & Ha).
  assert (Hscan : posixpath.splitext_scan
                    (String.length (stem ++ String "." e))
                    (stem ++ String "." e) (-1 + 1)
                    (Z.of_nat (String.length stem)) = true).
  { rewrite Est at 2. rewrite append_assoc. cbn [append].
    apply splitext_scan_finds; trivial; try lia.
    - rewrite Est, !length_append. cbn [String.length].
      assert (Hl : String.length (str.repeat "." n) = n)
        by (clear; induction n; simpl; congruence).
      rewrite Hl. lia.
    - rewrite Est, length_append. cbn [String.length].
      assert (Hl : String.length (str.repeat "." n) = n)
        by (clear; induction n; simpl; congruence).
      rewrite Hl. lia. }
  rewrite Hscan.
  assert (Hlt : (-1 <? Z.of_nat (String.length stem)) = true)
    by (apply Z.ltb_lt; lia).
  rewrite Hlt. cbn [andb]. unfold str.slice_to, str.slice_from.
  now rewrite Nat2Z.id, take_append, drop_append.
Qed.

Lemma lower_append (a b : string) :
  str.lower (a ++ b) = str.lower a ++ str.lower b.
Proof. induction a as [|x a IH]; simpl; [reflexivity | now rewrite IH]. Qed.

(** X17. A file whose name is a stem followed by one of the seven
    extensions, in any mix of upper and lower case, is eligible, provided
    the stem holds no separator and is not made of dots only. *)
Theorem allowed_extension_is_eligible (stem ext fn : string) :
  In ext IMAGE_EXTS ->
  contains posixpath.sep stem = false ->
  str.all_char "." stem = false ->
  str.lower fn = str.lower (stem ++ ext) ->
  eligible fn = true.
Proof.
  intros Hext Hs Hall Hfn.
  rewrite <- (eligible_lower fn), Hfn, eligible_lower.
  unfold eligible, IMAGE_EXTS in *.
  repeat (destruct Hext as [<- | Hext];
          [rewrite splitext_stem_ext; trivial; reflexivity|]).
  contradiction.
Qed.

(** ** The further properties at the sample folders *)

Lemma empty_image_is_error_witness :
  process_one sample_cv faulty_world (sample_args false)
    "./in/empty.png" "./out" 20 3 1 false
  = ([Makedirs "./out/"; Imread "./in/empty.png"],
     Returns "ERROR (./in/empty.png): Empty image provided").
Proof.
  apply (empty_image_is_error sample_cv faulty_world (sample_args false)
           "./in/empty.png" "./out" 20 3 1 false "./out/" [[]]);
    reflexivity.
Defined.

Lemma outcome_follows_imwrite_witness :
  let run := process_one sample_cv faulty_world (sample_args false)
               "./in/locked.png" "./out" 20 3 1 false in
  fst run = [Makedirs "./out/"; Imread "./in/locked.png";
             Imwrite "./out/locked.png" sample_bgra] /\
  (cv2_imwrite faulty_world "./out/locked.png" sample_bgra = Returns true ->
   snd run = Returns "OK: ./out/locked.png") /\
  (cv2_imwrite faulty_world "./out/locked.png" sample_bgra = Returns false ->
   snd run = Returns "ERROR (write failed): ./out/locked.png") /\
  (forall e,
     cv2_imwrite faulty_world "./out/locked.png" sample_bgra = Raises e ->
     snd run = Returns ("ERROR (" ++ "./in/locked.png" ++ "): " ++ exn_msg e)).
Proof.
  apply (outcome_follows_imwrite sample_cv faulty_world (sample_args false)
           "./in/locked.png" "./out" 20 3 1 false "./out/" "./out/locked.png"
           sample_bgr sample_bgra);
    reflexivity.
Defined.

Lemma ok_means_written_witness :
  exists out_path bgr bgra,
    "OK: ./out/fine.png" = "OK: " ++ out_path /\
    out_path_of faulty_world (sample_args false) "./in/fine.JPG" "./out" false
      = Returns out_path /\
    cv2_imread faulty_world "./in/fine.JPG" = Returns (Some bgr) /\
    remove_black_background_array sample_cv (Some bgr) 20 3 1
      = Returns bgra /\
    cv2_imwrite faulty_world out_path bgra = Returns true /\
    In (Imwrite out_path bgra)
       (fst (process_one sample_cv faulty_world (sample_args false)
               "./in/fine.JPG" "./out" 20 3 1 false)).
Proof.
  apply (ok_means_written sample_cv faulty_world (sample_args false)
           "./in/fine.JPG" "./out" 20 3 1 false "OK: ./out/fine.png");
    reflexivity.
Defined.

Lemma bare_name_raises_with_structure_witness :
  process_one sample_cv sample_world (sample_args true)
    "img.jpg" "./out" 20 3 1 true
  = ([], Raises (ValueError "no path specified")).
Proof.
  apply (bare_name_raises_with_structure sample_cv sample_world
           (sample_args true) "img.jpg" "./out" 20 3 1).
  reflexivity.
Defined.

Lemma top_level_file_goes_under_dot_witness :
  rel_dir_of sample_world (sample_args true) "./in/a.jpg" true = Returns "." /\
  out_path_of sample_world (sample_args true) "./in/a.jpg" "./out" true
    = Returns (posixpath.join "./out" ["."; "a.png"]) /\
  ("./out" <> EmptyString -> str.endswith "./out" posixpath.sep = false ->
   out_path_of sample_world (sample_args true) "./in/a.jpg" "./out" true
     = Returns "./out/./a.png").
Proof.
  apply (top_level_file_goes_under_dot sample_world (sample_args true)
           "./out" "a.jpg");
    [discriminate | reflexivity | reflexivity].
Defined.

Lemma no_workers_no_run_witness :
  (list_images sample_world "./in" <> [] ->
   main sample_cv sample_world idle_args =
     ([Makedirs "./out"],
      Raises (ValueError "max_workers must be greater than 0"))) /\
  (list_images sample_world "./in" = [] ->
   snd (main sample_cv sample_world idle_args) = Returns 0).
Proof.
  apply (no_workers_no_run sample_cv sample_world idle_args);
    [reflexivity | reflexivity | simpl; lia].
Defined.


Lemma one_raise_ends_the_run_witness :
  (exists e', snd (main sample_cv blocked_world (sample_args true))
              = Raises e') /\
  (forall line,
     ~ In (Print line) (fst (main sample_cv blocked_world (sample_args true)))) /\
  (forall ok err skip,
     ~ reports_summary (fst (main sample_cv blocked_world (sample_args true)))
         ok err skip).
Proof.
  apply (one_raise_ends_the_run sample_cv blocked_world (sample_args true)
           "./in/sub/img.jpg"
           (Exn "FileExistsError" "[Errno 17] File exists: './out/sub'")).
  - reflexivity.
  - simpl. auto.
  - reflexivity.
Defined.

Lemma every_file_read_once_witness :
  Permutation
    (reads (fst (main sample_cv sample_world (sample_args true))))
    (list_images sample_world "./in").
Proof.
  apply (every_file_read_once sample_cv sample_world (sample_args true)
           (fst (main sample_cv sample_world (sample_args true))) 0).
  - vm_compute. reflexivity.
  - reflexivity.
Defined.

Lemma skipped_are_the_unreadable_witness :
  exists ok err,
    reports_summary (fst (main sample_cv sample_world (sample_args true)))
      ok err
      (List.length (filter (unreadable sample_world)
                      (list_images sample_world "./in"))) /\
    (ok + err
     + List.length (filter (unreadable sample_world)
                      (list_images sample_world "./in"))
     = List.length (list_images sample_world "./in"))%nat.
Proof.
  apply (skipped_are_the_unreadable sample_cv sample_world
           (sample_args true)
           (fst (main sample_cv sample_world (sample_args true))) 0).
  - vm_compute. reflexivity.
  - reflexivity.
  - discriminate.
Defined.

(** The sprite with one pass of dilation and no feathering: the pixel in
    row 0, column 3 is bright and next to the black-ish one of column 2,
    so it becomes transparent; the pixel of column 5 has no black-ish
    pixel within one cell and stays opaque. *)
Lemma dilation_reaches_n_cells_witness :
  (exists out q,
     remove_black_background_array sample_cv (Some sample_sprite) 20 0 1
       = Returns out /\
     at2 out 0 3 = Some q /\
     (a4 q = 0 \/ a4 q = 255) /\
     (a4 q = 0 <->
      exists i' j' p',
        at2 sample_sprite i' j' = Some p' /\ is_black 20 p' = true /\
        near (Z.to_nat 1) 0 3 i' j') /\
     a4 q = 0) /\
  (exists out q,
     remove_black_background_array sample_cv (Some sample_sprite) 20 0 1
       = Returns out /\
     at2 out 0 5 = Some q /\
     (a4 q = 0 \/ a4 q = 255) /\
     (a4 q = 0 <->
      exists i' j' p',
        at2 sample_sprite i' j' = Some p' /\ is_black 20 p' = true /\
        near (Z.to_nat 1) 0 5 i' j') /\
     a4 q = 255).
Proof.
  split.
  - destruct (dilation_reaches_n_cells sample_cv sample_sprite 6 20 0 1
                ltac:(repeat constructor) eq_refl (fun _ => eq_refl)
                0 3 (BGR 200 10 10) eq_refl)
      as (out & q & E & Hq & Hb & Hiff).
    exists out, q. split; [exact E|]. split; [exact Hq|].
    split; [exact Hb|]. split; [exact Hiff|].
    apply Hiff. exists 0, 2, (BGR 20 20 20).
    split; [reflexivity|]. split; [reflexivity|]. unfold near. simpl. lia.
  - destruct (dilation_reaches_n_cells sample_cv sample_sprite 6 20 0 1
                ltac:(repeat constructor) eq_refl (fun _ => eq_refl)
                0 5 (BGR 90 80 70) eq_refl)
      as (out & q & E & Hq & Hb & Hiff).
    exists out, q. split; [exact E|]. split; [exact Hq|].
    split; [exact Hb|]. split; [exact Hiff|].
    injection E as <-. injection Hq as <-. reflexivity.
Defined.

(** The sprite with feather 3 and one pass of dilation: with threshold 10
    the two left columns are transparent, with threshold 20 the third
    column is so as well, and no alpha is larger. *)
Lemma threshold_grows_transparency_witness :
  exists out1 out2,
    remove_black_background_array sample_cv (Some sample_sprite) 10 3 1
      = Returns out1 /\
    remove_black_background_array sample_cv (Some sample_sprite) 20 3 1
      = Returns out2 /\
    (forall i j q1, at2 out1 i j = Some q1 ->
       exists q2, at2 out2 i j = Some q2 /\
                  0 <= a4 q2 <= a4 q1 /\
                  (a4 q1 = 0 -> a4 q2 = 0)) /\
    alpha_of out1 = [ [0; 0; 64; 191; 255; 255]; [0; 0; 64; 191; 255; 255];
                      [0; 0; 64; 191; 255; 255]; [0; 0; 64; 191; 255; 255] ] /\
    alpha_of out2 = [ [0; 0; 0; 64; 191; 255]; [0; 0; 0; 64; 191; 255];
                      [0; 0; 0; 64; 191; 255]; [0; 0; 0; 64; 191; 255] ].
Proof.
  eexists. eexists.
  split; [vm_compute; reflexivity|]. split; [vm_compute; reflexivity|].
  split; [|split; vm_compute; reflexivity].
  apply (proj2 (threshold_grows_transparency sample_cv sample_cv_shape
                  sample_cv_uint8 sample_cv_mono sample_sprite 10 20 3 1
                  ltac:(vm_compute; discriminate) ltac:(lia)));
    vm_compute; reflexivity.
Defined.

(** The picture [./in/a.jpg] with [--dilate 5000], for which the sample
    library has no memory. *)
Lemma opencv_error_is_reported_witness :
  remove_black_background_array sample_cv (Some sample_bgr) 20 3 5000
    = Raises (Exn "cv2.error" "Insufficient memory") /\
  process_one sample_cv sample_world greedy_args "./in/a.jpg" "./out"
    20 3 5000 false
  = ([Makedirs "./out/"; Imread "./in/a.jpg"],
     Returns "ERROR (./in/a.jpg): Insufficient memory").
Proof.
  destruct (opencv_error_is_reported sample_cv sample_world greedy_args
              "./in/a.jpg" "./out" 20 3 5000 false "./out/" sample_bgr
              eq_refl eq_refl eq_refl ltac:(vm_compute; discriminate))
    as (Hd & _ & Hp).
  assert (E : remove_black_background_array sample_cv (Some sample_bgr) 20 3 5000
              = Raises (Exn "cv2.error" "Insufficient memory"))
    by (apply Hd; [lia | reflexivity]).
  split; [exact E | exact (Hp _ E)].
Defined.

Lemma leading_dots_are_no_extension_witness :
  posixpath.splitext ".png" = (".png", EmptyString) /\ eligible ".png" = false.
Proof.
  apply (leading_dots_are_no_extension 1 "png"). reflexivity.
Defined.

Lemma allowed_extension_is_eligible_witness : eligible "fine.JPG" = true.
Proof.
  apply (allowed_extension_is_eligible "fine" ".jpg" "fine.JPG");
    [simpl; auto | reflexivity | reflexivity | reflexivity].
Defined.
